(** * Shallow embedding of three fragments of PCP (Performance Co-Pilot)

    - [src/pmdas/linux/proc_uptime.c]      : [refresh_proc_uptime]
    - [src/pmdas/linux_sockets/cluster.h]  : the cluster enumeration
    - [src/pmdas/statsd/src/parser-basic.h]: the interface of
      [basic_parser_parse]

    C [char] buffers are lists of bytes, [int] values are [Z], the calls
    into the operating system go through a small state monad that keeps
    [errno] and the trace of system calls. *)

From Stdlib Require Import ZArith QArith Lia Bool String.
From Stdlib Require Import Strings.Byte.
From stdpp Require Import base list.

Close Scope Q_scope.
Local Open Scope Z_scope.

(** ** Bytes and C strings *)

Definition bytes (s : string) : list byte := list_byte_of_string s.

Definition NUL : byte := x00.

Definition is_nul (b : byte) : bool := Byte.eqb b NUL.

(** The characters of a NUL terminated string held in [buf]; [None] when
    no terminator lies inside the buffer (reading on would leave it). *)
Fixpoint c_str (buf : list byte) : option (list byte) :=
  match buf with
  | [] => None
  | b :: rest =>
      if is_nul b then Some []
      else match c_str rest with
           | Some s => Some (b :: s)
           | None => None
           end
  end.

(** The bytes before the first NUL, or all of them. *)
Fixpoint until_nul (l : list byte) : list byte :=
  match l with
  | [] => []
  | b :: rest => if is_nul b then [] else b :: until_nul rest
  end.

(** ** The part of libc the code calls: character classes and [%lf] *)

Module Libc.

(** [isspace] in the C locale. *)
Definition isspace (c : byte) : bool :=
  match c with
  | x20 | x09 | x0a | x0b | x0c | x0d => true
  | _ => false
  end.

Definition isdigit (c : byte) : bool :=
  match c with
  | x30 | x31 | x32 | x33 | x34 | x35 | x36 | x37 | x38 | x39 => true
  | _ => false
  end.

Definition is_sign (c : byte) : bool :=
  match c with
  | x2b | x2d => true
  | _ => false
  end.

Definition is_point (c : byte) : bool :=
  match c with
  | x2e => true
  | _ => false
  end.

Definition is_exp_mark (c : byte) : bool :=
  match c with
  | x65 | x45 => true
  | _ => false
  end.

(** [p] or [P], the mark of a binary exponent. *)
Definition is_bin_exp_mark (c : byte) : bool :=
  match c with
  | x70 | x50 => true
  | _ => false
  end.

(** [x] or [X]. *)
Definition is_x (c : byte) : bool :=
  match c with
  | x78 | x58 => true
  | _ => false
  end.

Definition isupper (c : byte) : bool :=
  ((65 <=? Byte.to_N c) && (Byte.to_N c <=? 90))%N.

Definition islower (c : byte) : bool :=
  ((97 <=? Byte.to_N c) && (Byte.to_N c <=? 122))%N.

Definition tolower (c : byte) : byte :=
  if isupper c then
    match Byte.of_N (Byte.to_N c + 32) with
    | Some l => l
    | None => c
    end
  else c.

Definition isxdigit (c : byte) : bool :=
  isdigit c
  || ((97 <=? Byte.to_N (tolower c)) && (Byte.to_N (tolower c) <=? 102))%N.

(** The characters of the sequence in [NAN(...)]: digits, letters and
    the underscore. *)
Definition is_nchar (c : byte) : bool :=
  isdigit c || isupper c || islower c
  || match c with
     | x5f => true
     | _ => false
     end.

Fixpoint skip_space (s : list byte) : list byte :=
  match s with
  | c :: rest => if isspace c then skip_space rest else s
  | [] => []
  end.

(** The longest prefix of [s] whose bytes satisfy [p], and what follows. *)
Fixpoint span (p : byte -> bool) (s : list byte) : list byte * list byte :=
  match s with
  | c :: rest =>
      if p c then let '(a, b) := span p rest in (c :: a, b)
      else ([], s)
  | [] => ([], [])
  end.

Definition opt_sign (s : list byte) : list byte * list byte :=
  match s with
  | c :: rest => if is_sign c then ([c], rest) else ([], s)
  | [] => ([], [])
  end.

(** The fraction, point included, when [s] starts with a point. *)
Definition opt_fraction (digit : byte -> bool) (s : list byte)
  : list byte * list byte :=
  match s with
  | c :: rest =>
      if is_point c then let '(f, r) := span digit rest in (c :: f, r)
      else ([], s)
  | [] => ([], [])
  end.

(** The exponent part: a mark, an optional sign, decimal digits.
    [None]: a mark that no digit follows, so that the characters read
    are only a proper prefix of a number. *)
Definition opt_exponent (mark : byte -> bool) (s : list byte)
  : option (list byte * list byte) :=
  match s with
  | c :: rest =>
      if mark c then
        let '(sg, r1) := opt_sign rest in
        let '(ds, r2) := span isdigit r1 in
        match ds with
        | [] => None
        | _ :: _ => Some (c :: sg ++ ds, r2)
        end
      else Some ([], s)
  | [] => Some ([], [])
  end.

(** Digits with an optional point, one digit at least, and an optional
    exponent. *)
Definition scan_digits_exp (digit mark : byte -> bool) (s : list byte)
  : option (list byte * list byte) :=
  let '(ip, s2) := span digit s in
  let '(fp, s3) := opt_fraction digit s2 in
  match ip, fp with
  | [], [] | [], [_] => None
  | _, _ =>
      match opt_exponent mark s3 with
      | Some (ep, s4) => Some (ip ++ fp ++ ep, s4)
      | None => None
      end
  end.

(** The decimal form: [digits[.digits][e[sign]digits]]. *)
Definition scan_decimal (s : list byte) : option (list byte * list byte) :=
  scan_digits_exp isdigit is_exp_mark s.

(** The hexadecimal form: [0x] or [0X], hexadecimal digits with an
    optional point, an optional binary exponent [p[sign]digits]. *)
Definition is_hex_prefix (s : list byte) : bool :=
  match s with
  | x30 :: c :: _ => is_x c
  | _ => false
  end.

Definition scan_hex (s : list byte) : option (list byte * list byte) :=
  match s with
  | z :: x :: r =>
      match scan_digits_exp isxdigit is_bin_exp_mark r with
      | Some (t, r') => Some (z :: x :: t, r')
      | None => None
      end
  | _ => None
  end.

(** How many bytes at the start of [s] spell the start of [pat], the
    case of letters ignored; [pat] is in lower case. *)
Fixpoint match_ci (pat s : list byte) : nat :=
  match pat, s with
  | p :: pat', c :: s' =>
      if Byte.eqb (tolower c) p then S (match_ci pat' s') else O
  | _, _ => O
  end.

(** [INF] or [INFINITY]. *)
Definition scan_inf (s : list byte) : option (list byte * list byte) :=
  match match_ci (bytes "infinity") s with
  | 3%nat => Some (take 3 s, drop 3 s)
  | 8%nat => Some (take 8 s, drop 8 s)
  | _ => None
  end.

(** [NAN] or [NAN(n-char-sequence)]. *)
Definition scan_nan (s : list byte) : option (list byte * list byte) :=
  match match_ci (bytes "nan") s with
  | 3%nat =>
      match drop 3 s with
      | x28 :: r1 =>
          let '(cs, r2) := span is_nchar r1 in
          match r2 with
          | x29 :: r3 => Some (take 3 s ++ x28 :: cs ++ [x29], r3)
          | _ => None
          end
      | r => Some (take 3 s, r)
      end
  | _ => None
  end.

Definition starts_with_ci (p : byte) (s : list byte) : bool :=
  match s with
  | c :: _ => Byte.eqb (tolower c) p
  | [] => false
  end.

(** The input item of a floating conversion: an optional sign, then
    whichever form of the subject sequence of [strtod] the input starts
    (ISO C 7.22.1.3).  The result is the text matched and the input
    left; [None] is a matching failure.  ISO C 7.21.6.2: the item is the
    longest sequence of characters that is a prefix of a matching
    sequence, and the directive fails when the item is not itself a
    matching sequence (a sign alone, an exponent mark without digits,
    [0x] without digits, [infin]). *)
Definition scan_float (s : list byte) : option (list byte * list byte) :=
  let '(sg, s1) := opt_sign s in
  let body :=
    if starts_with_ci x69 s1 then scan_inf s1
    else if starts_with_ci x6e s1 then scan_nan s1
    else if is_hex_prefix s1 then scan_hex s1
    else scan_decimal s1 in
  match body with
  | Some (t, r) => Some (sg ++ t, r)
  | None => None
  end.

(** A signed number in decimal, the only form with a finite value by
    construction. *)
Definition scan_signed_decimal (s : list byte)
  : option (list byte * list byte) :=
  let '(sg, s1) := opt_sign s in
  match scan_decimal s1 with
  | Some (t, r) => Some (sg ++ t, r)
  | None => None
  end.

Inductive conversion : Type :=
| InputFailure
| MatchingFailure
| Converted (text rest : list byte).

(** One [%lf] directive: white space is skipped, then the item is read.
    The end of the string before any character of the item is an input
    failure. *)
Definition conv_lf (s : list byte) : conversion :=
  match skip_space s with
  | [] => InputFailure
  | s' =>
      match scan_float s' with
      | Some (t, r) => Converted t r
      | None => MatchingFailure
      end
  end.

Definition EOF : Z := -1.

(** *** Decimal numbers, as a grammar

    A number written in decimal: sign, integer digits, fraction and
    exponent, each part as it is spelled.  This is the subject sequence
    of [strtod] in its decimal form; it says what [scan_float] has to
    accept, and [scan_float] does not use it. *)
Record literal : Type := {
  l_sign : list byte;
  l_int : list byte;
  l_frac : option (list byte);
  l_exp : option (byte * list byte * list byte)
}.

Definition wf_sign (sg : list byte) : bool :=
  match sg with
  | [] => true
  | [c] => is_sign c
  | _ => false
  end.

Definition nonempty (l : list byte) : bool :=
  match l with
  | [] => false
  | _ :: _ => true
  end.

Definition wf_literal (l : literal) : bool :=
  wf_sign (l_sign l)
  && forallb isdigit (l_int l)
  && match l_frac l with
     | None => nonempty (l_int l)
     | Some f => forallb isdigit f && (nonempty (l_int l) || nonempty f)
     end
  && match l_exp l with
     | None => true
     | Some (m, sg, ds) =>
         is_exp_mark m && wf_sign sg && forallb isdigit ds && nonempty ds
     end.

Definition render_frac (f : option (list byte)) : list byte :=
  match f with
  | None => []
  | Some ds => x2e :: ds
  end.

Definition render_exp (e : option (byte * list byte * list byte))
  : list byte :=
  match e with
  | None => []
  | Some (m, sg, ds) => m :: sg ++ ds
  end.

(** The parts of a literal after its sign. *)
Definition unsigned (l : literal) : list byte :=
  l_int l ++ render_frac (l_frac l) ++ render_exp (l_exp l).

Definition render (l : literal) : list byte := l_sign l ++ unsigned l.

(** The first byte of [s], if any, is not in the class [p]. *)
Definition head_not (p : byte -> bool) (s : list byte) : Prop :=
  match s with
  | [] => True
  | c :: _ => p c = false
  end.

Definition no_nul (l : list byte) : bool :=
  forallb (fun b => negb (is_nul b)) l.

(** What may follow a number in the input: nothing, or white space. *)
Definition delimited (rest : list byte) : bool :=
  match rest with
  | [] => true
  | c :: _ => isspace c
  end.

End Libc.

(** ** The operating system, as the code sees it *)

(** [int] is 32 bits wide on every platform PCP supports; a conversion to
    [int] wraps around. *)
Definition INT_MAX : Z := 2147483647.

Definition int_of (z : Z) : Z := (z + 2 ^ 31) mod 2 ^ 32 - 2 ^ 31.

(** The outcome of a system call.  A call that fails sets [errno] to one
    of the error numbers, which are positive (POSIX, <errno.h>). *)
Inductive sysret (A : Type) : Type :=
| Failed (errno : positive)
| Done (a : A).
Arguments Failed {A} errno.
Arguments Done {A} a.

(** What the system answers to the three calls of [refresh_proc_uptime].
    [os_read] gives the bytes the file offers; [read] hands over no more
    of them than its count. *)
Record os_model : Type := {
  os_open : list byte -> sysret nat;
  os_read : Z -> sysret (list byte);
  os_close : Z -> sysret unit
}.

Inductive event : Type :=
| EvOpen (path : list byte)
| EvRead (fd : Z) (count : nat)
| EvClose (fd : Z).

Record world : Type := {
  w_errno : Z;
  w_trace : list event
}.

Definition log (e : event) (w : world) : world :=
  {| w_errno := w_errno w; w_trace := w_trace w ++ [e] |}.

Definition set_errno (e : Z) (w : world) : world :=
  {| w_errno := e; w_trace := w_trace w |}.

(** State monad over [world]; [None] is a memory fault (an access outside
    the buffer), after which nothing is defined. *)
Definition M (A : Type) : Type := world -> option (A * world).

Definition ret {A} (a : A) : M A := fun w => Some (a, w).

Definition bind {A B} (m : M A) (k : A -> M B) : M B :=
  fun w => match m w with
           | Some (a, w') => k a w'
           | None => None
           end.

Definition lift {A} (o : option A) : M A :=
  fun w => match o with
           | Some a => Some (a, w)
           | None => None
           end.

Notation "x <- m ;; k" := (bind m (fun x => k))
  (at level 100, m at next level, right associativity).

Definition sys_open (os : os_model) (path : list byte) : M Z :=
  fun w =>
    let w := log (EvOpen path) w in
    match os_open os path with
    | Failed e => Some (-1, set_errno (Z.pos e) w)
    | Done fd => Some (Z.of_nat fd, w)
    end.

(** [read(fd, buf, count)]: the bytes land at the start of [buf], the rest
    of [buf] keeps what it held. *)
Definition sys_read (os : os_model) (fd : Z) (buf : list byte) (count : nat)
  : M (Z * list byte) :=
  fun w =>
    let w := log (EvRead fd count) w in
    match os_read os fd with
    | Failed e => Some ((-1, buf), set_errno (Z.pos e) w)
    | Done data =>
        let d := take count data in
        Some ((Z.of_nat (length d), d ++ drop (length d) buf), w)
    end.

Definition sys_close (os : os_model) (fd : Z) : M Z :=
  fun w =>
    let w := log (EvClose fd) w in
    match os_close os fd with
    | Failed e => Some (-1, set_errno (Z.pos e) w)
    | Done _ => Some (0, w)
    end.

(** libpcp's [oserror()] reads [errno]. *)
Definition oserror : M Z := fun w => Some (w_errno w, w).

(** [buf[i] = v]; a fault when [i] is not an index of [buf]. *)
Definition store (buf : list byte) (i : Z) (v : byte) : M (list byte) :=
  if (0 <=? i) && (i <? Z.of_nat (length buf))
  then ret (<[Z.to_nat i := v]> buf)
  else lift None.

(** The world once [close(fd)] has returned. *)
Definition after_close (os : os_model) (fd : Z) (w : world) : world :=
  match os_close os fd with
  | Failed e => set_errno (Z.pos e) (log (EvClose fd) w)
  | Done _ => log (EvClose fd) w
  end.

(** All the bytes of [d] but the last one. *)
Definition all_but_last (d : list byte) : list byte :=
  take (length d - 1) d.

(** A local array that was not initialised: its bytes are whatever
    [garbage] says. *)
Definition stack_array (garbage : nat -> byte) (size : nat) : list byte :=
  map garbage (seq 0 size).

(** libpcp's [pmsprintf(buf, size, ...)], given the text that the format
    produces: an [snprintf] whose output is always terminated, truncated
    to [size - 1] characters; nothing is written when [size] is 0. *)
Definition pmsprintf (buf : list byte) (size : nat) (text : list byte)
  : list byte :=
  match size with
  | O => buf
  | S m =>
      let out := take m text ++ [NUL] in
      out ++ drop (length out) buf
  end.

(** ** [src/pmdas/linux/proc_uptime.c] *)

Section ProcUptime.

(** C's [double] and the value whose bytes are all zero: floating point
    arithmetic is not modelled, the two are parameters. *)
Variable double : Type.
Variable dzero : double.

(** [MAXPATHLEN] comes from a system header, [linux_statspath] is a
    global of the Linux agent; neither is among the source files. *)
Variable MAXPATHLEN : nat.
Variable linux_statspath : list byte.

(** [proc_uptime_t] of proc_uptime.h: the two fields the code fills
    through [%lf]. *)
Record proc_uptime_t : Type := {
  uptime : double;
  idletime : double
}.

(** libc's [sscanf(s, "%lf %lf", &pu->uptime, &pu->idletime)]: the
    value it returns and the structure afterwards.  A parameter here;
    [sscanf_lf_lf] below is its model after ISO C.  The error number that
    [sscanf] may leave in [errno] (ERANGE) is not modelled: after a read
    that succeeded, [w_errno] is [errno] as it was before [sscanf]. *)
Variable sscanf : list byte -> proc_uptime_t -> Z * proc_uptime_t.

(** [memset(proc_uptime, 0, sizeof(proc_uptime_t))] *)
Definition memset_zero (pu : proc_uptime_t) : proc_uptime_t :=
  {| uptime := dzero; idletime := dzero |}.

Definition zeroed : proc_uptime_t :=
  {| uptime := dzero; idletime := dzero |}.

(** The path that reaches [open]: the text of ["%s/proc/uptime"], cut
    to the size of the buffer. *)
Definition uptime_path : list byte :=
  until_nul (take (MAXPATHLEN - 1)
               (until_nul linux_statspath ++ bytes "/proc/uptime")).

(** The decrement of [n] before the terminator is stored:
    [else if (n > 0) n--;] *)
Definition adjust (n : Z) : Z := if 0 <? n then n - 1 else n.

(** [refresh_proc_uptime]: the value returned and the structure the
    caller's pointer designates afterwards. *)
Definition refresh_proc_uptime (os : os_model) (garbage : nat -> byte)
    (pu : proc_uptime_t) : M (Z * proc_uptime_t) :=
  let buf := stack_array garbage MAXPATHLEN in
  let pu := memset_zero pu in
  let buf := pmsprintf buf MAXPATHLEN
               (until_nul linux_statspath ++ bytes "/proc/uptime") in
  path <- lift (c_str buf) ;;
  fd <- sys_open os path ;;
  if fd <? 0 then
    e <- oserror ;; ret (- e, pu)
  else
    r <- sys_read os fd buf MAXPATHLEN ;;
    let n := int_of (fst r) in
    let buf := snd r in
    _ <- sys_close os fd ;;
    if n <? 0 then
      e <- oserror ;; ret (- e, pu)
    else
      let n := adjust n in
      buf <- store buf n NUL ;;
      s <- lift (c_str buf) ;;
      let pu := snd (sscanf s pu) in
      ret (0, pu).

End ProcUptime.

Arguments uptime {double} _.
Arguments idletime {double} _.
Arguments zeroed {double} dzero.

(** *** The model of [sscanf] with the format ["%lf %lf"] *)

Section Scanf.

(** The value [strtod] gives to the text of a number. *)
Variable double : Type.
Variable strtod : list byte -> double.

(** The first [%lf], the white space directive, the second [%lf]: the
    number of fields assigned, or [EOF] when the input ends before the
    first conversion, and the structure afterwards. *)
Definition sscanf_lf_lf (s : list byte) (pu : proc_uptime_t double)
  : Z * proc_uptime_t double :=
  match Libc.conv_lf s with
  | Libc.InputFailure => (Libc.EOF, pu)
  | Libc.MatchingFailure => (0, pu)
  | Libc.Converted t1 r1 =>
      let pu1 := {| uptime := strtod t1; idletime := idletime pu |} in
      match Libc.conv_lf (Libc.skip_space r1) with
      | Libc.Converted t2 _ =>
          (2, {| uptime := uptime pu1; idletime := strtod t2 |})
      | _ => (1, pu1)
      end
  end.

End Scanf.

(** The text of the uptime file: two numbers, a space between them, a
    newline at the end. *)
Definition uptime_text (a b : Libc.literal) : list byte :=
  Libc.render a ++ [x20] ++ Libc.render b ++ [x0a].

(** *** Systems to run the code on *)

Definition ENOENT : positive := 2.
Definition EIO : positive := 5.

(** The file is there and holds [content]. *)
Definition os_file (content : list byte) : os_model :=
  {| os_open := fun _ => Done 3%nat;
     os_read := fun _ => Done content;
     os_close := fun _ => Done tt |}.

(** There is no such file. *)
Definition os_missing : os_model :=
  {| os_open := fun _ => Failed ENOENT;
     os_read := fun _ => Failed EIO;
     os_close := fun _ => Done tt |}.

(** The file opens, reading it fails. *)
Definition os_unreadable : os_model :=
  {| os_open := fun _ => Done 3%nat;
     os_read := fun _ => Failed EIO;
     os_close := fun _ => Done tt |}.

(** Reading fails, and so does closing the descriptor afterwards. *)
Definition EBADF : positive := 9.

Definition os_close_fails : os_model :=
  {| os_open := fun _ => Done 3%nat;
     os_read := fun _ => Failed EIO;
     os_close := fun _ => Failed EBADF |}.

Definition world0 : world := {| w_errno := 0; w_trace := [] |}.

Definition garbage0 : nat -> byte := fun _ => xaa.

(** ** The exact value of a decimal text *)

Module Decimal.
Import Libc.

Definition digit_val (c : byte) : Z := Z.of_N (Byte.to_N c) - 48.

Definition digits_val (ds : list byte) : Z :=
  fold_left (fun acc c => 10 * acc + digit_val c) ds 0.

Definition is_minus (sg : list byte) : bool :=
  match sg with
  | x2d :: _ => true
  | _ => false
  end.

Definition pow10 (e : Z) : Q :=
  if 0 <=? e then inject_Z (10 ^ e)
  else Qmake 1 (Z.to_pos (10 ^ (- e))).

Definition exponent_val (s : list byte) : Z :=
  match s with
  | c :: rest =>
      if is_exp_mark c then
        let '(sg, r1) := opt_sign rest in
        let '(ds, _) := span isdigit r1 in
        if is_minus sg then - digits_val ds else digits_val ds
      else 0
  | [] => 0
  end.

(** The rational number that a text accepted by [Libc.scan_decimal],
    with or without a sign, denotes, in lowest terms.  It stands for the
    number where a value is shown; the rounding to a [double] is not
    modelled. *)
Definition decimal_value (t : list byte) : Q :=
  let '(sg, s1) := opt_sign t in
  let '(ip, s2) := span isdigit s1 in
  let '(fp, s3) := opt_fraction isdigit s2 in
  let frac := tail fp in
  let q := Qmult (inject_Z (digits_val (ip ++ frac)))
                 (pow10 (exponent_val s3 - Z.of_nat (length frac))) in
  Qred (if is_minus sg then Qopp q else q).

End Decimal.

(** ** [src/pmdas/linux_sockets/cluster.h] *)

Module Cluster.

(** An enumerator as it is declared: its name and, when one is written,
    its value. *)
Definition declaration : Type := string * option Z.

(** The values C gives to the enumerators of one [enum]: the constant
    written, or one more than the enumerator before; the first one is 0
    when nothing is written. *)
Fixpoint enum_values (next : Z) (decls : list declaration)
  : list (string * Z) :=
  match decls with
  | [] => []
  | (name, v) :: rest =>
      let x := match v with
               | Some x => x
               | None => next
               end in
      (name, x) :: enum_values (x + 1) rest
  end.

(** The anonymous [enum] of cluster.h. *)
Definition cluster_enum : list declaration :=
  [ ("CLUSTER_GLOBAL"%string, Some 0);
    ("CLUSTER_SS"%string, Some 1);
    ("NUM_CLUSTERS"%string, None) ].

Fixpoint value_of (name : string) (vs : list (string * Z)) : option Z :=
  match vs with
  | [] => None
  | (n, x) :: rest => if String.eqb n name then Some x else value_of name rest
  end.

Definition enumerator (name : string) : Z :=
  match value_of name (enum_values 0 cluster_enum) with
  | Some x => x
  | None => 0
  end.

Definition CLUSTER_GLOBAL : Z := enumerator "CLUSTER_GLOBAL".
Definition CLUSTER_SS : Z := enumerator "CLUSTER_SS".
Definition NUM_CLUSTERS : Z := enumerator "NUM_CLUSTERS".

(** The identifiers of the clusters: every enumerator but the count,
    which is the last one. *)
Definition cluster_ids : list Z :=
  map snd (removelast (enum_values 0 cluster_enum)).

End Cluster.

(** ** [src/pmdas/statsd/src/parser-basic.h]

    The header declares [basic_parser_parse] and documents what it
    returns; its body, and the type [struct statsd_datagram] of
    parsers.h, are not among the source files. *)

Module Statsd.

(** Modelled from the spec: the kinds of metric, section 3. *)
Inductive metric_type : Type := Counter | Gauge | Timer | Set_.

(** Modelled from the spec: the value of a datagram, a number, or for a
    set the member as it was sent (section 4.1: set values are opaque
    member identifiers). *)
Inductive dvalue : Type :=
| Number (q : Q)
| Member (m : list byte).

(** Modelled from the spec: [struct statsd_datagram] of parsers.h, with
    the fields of the Datagram of section 3. *)
Record statsd_datagram : Type := {
  dg_name : list byte;
  dg_type : metric_type;
  dg_value : dvalue;
  dg_sampleRate : Q;
  dg_tags : list (list byte * list byte)
}.

(** Modelled from the spec: the taxonomy of section 7. *)
Inductive ParseError : Type :=
| TooLarge
| UnknownType
| InvalidSampleRate
| MalformedValue
| MalformedName.

Inductive parse_result : Type :=
| Parsed (d : statsd_datagram)
| Failure (e : ParseError).

(** The bytes before the first [sep], and those after it. *)
Fixpoint split_at (sep : byte) (s : list byte)
  : option (list byte * list byte) :=
  match s with
  | [] => None
  | c :: rest =>
      if Byte.eqb c sep then Some ([], rest)
      else match split_at sep rest with
           | Some (a, b) => Some (c :: a, b)
           | None => None
           end
  end.

(** The fields that [sep] separates; there is always one at least. *)
Fixpoint split_all (sep : byte) (s : list byte) : list (list byte) :=
  match s with
  | [] => [[]]
  | c :: rest =>
      if Byte.eqb c sep then [] :: split_all sep rest
      else match split_all sep rest with
           | f :: fs => (c :: f) :: fs
           | [] => [[c]]
           end
  end.

(** The delimiters of the line protocol: [:], [|], [@], [#], [,] and
    the newline between statements. *)
Definition is_delimiter (c : byte) : bool :=
  match c with
  | x3a | x7c | x40 | x23 | x2c | x0a => true
  | _ => false
  end.

Definition valid_name (n : list byte) : bool :=
  Libc.nonempty n && forallb (fun c => negb (is_delimiter c)) n.

(** The type token: [c], [g], [ms] or [h], [s]. *)
Definition type_of_token (t : list byte) : option metric_type :=
  match t with
  | [x63] => Some Counter
  | [x67] => Some Gauge
  | [x6d; x73] | [x68] => Some Timer
  | [x73] => Some Set_
  | _ => None
  end.

(** A finite number, written in decimal, and nothing after it. *)
Definition parse_number (s : list byte) : option Q :=
  match Libc.scan_signed_decimal s with
  | Some (t, []) => Some (Decimal.decimal_value t)
  | _ => None
  end.

Definition parse_value (t : metric_type) (s : list byte) : option dvalue :=
  match t with
  | Set_ => if Libc.nonempty s then Some (Member s) else None
  | _ => match parse_number s with
         | Some q => Some (Number q)
         | None => None
         end
  end.

(** [@rate], with the rate in (0, 1]. *)
Definition parse_rate (f : list byte) : option Q :=
  match f with
  | x40 :: r =>
      match parse_number r with
      | Some q =>
          if negb (Qle_bool q 0) && Qle_bool q 1 then Some q else None
      | None => None
      end
  | _ => None
  end.

Definition parse_tag (item : list byte) : list byte * list byte :=
  match split_at x3a item with
  | Some (k, v) => (k, v)
  | None => (item, [])
  end.

(** [#tag1:val1,tag2:val2,...] *)
Definition parse_tags (f : list byte)
  : option (list (list byte * list byte)) :=
  match f with
  | x23 :: r => Some (map parse_tag (split_all x2c r))
  | _ => None
  end.

(** The optional fields after the type: a sample rate, then tags.  The
    rate is 1 when none is sent. *)
Definition parse_options (opts : list (list byte))
  : option (Q * list (list byte * list byte)) :=
  match opts with
  | [] => Some (1%Q, [])
  | [f] =>
      match parse_tags f with
      | Some tags => Some (1%Q, tags)
      | None => match parse_rate f with
                | Some q => Some (q, [])
                | None => None
                end
      end
  | [f1; f2] =>
      match parse_rate f1, parse_tags f2 with
      | Some q, Some tags => Some (q, tags)
      | _, _ => None
      end
  | _ => None
  end.

(** Modelled from the spec: the body of the parser, the contract
    [parse(buffer) -> Datagram | ParseError] of section 4.1 for the
    statement [name:value|type[|@sampleRate][|#tag1:val1,...]].
    [max_size] is the configured maximum datagram size.  The spec does
    not say which kind is reported for a statement with several
    defects; here the checks run in the order size, name, type, value,
    options, a statement without a type field is of unknown type, and
    optional fields that are not a valid rate followed by tags are
    reported as an invalid sample rate. *)
Definition parse (max_size : nat) (buffer : list byte) : parse_result :=
  if (max_size <? length buffer)%nat then Failure TooLarge
  else
    match split_at x3a buffer with
    | None => Failure MalformedName
    | Some (name, rest) =>
        if negb (valid_name name) then Failure MalformedName
        else
          match split_all x7c rest with
          | value :: ty :: opts =>
              match type_of_token ty with
              | None => Failure UnknownType
              | Some t =>
                  match parse_value t value with
                  | None => Failure MalformedValue
                  | Some v =>
                      match parse_options opts with
                      | None => Failure InvalidSampleRate
                      | Some (rate, tags) =>
                          Parsed {| dg_name := name;
                                    dg_type := t;
                                    dg_value := v;
                                    dg_sampleRate := rate;
                                    dg_tags := tags |}
                      end
                  end
              end
          | _ => Failure UnknownType
          end
    end.

(** [basic_parser_parse(buffer, &datagram)], as parser-basic.h declares
    and documents it: the [int] returned is 1 on success and 0 on fail,
    and the one placeholder is populated with the parsed data if they
    are valid.  The result is the value returned and the datagram put
    in the placeholder, if any. *)
Definition basic_parser_parse (max_size : nat) (buffer : list byte)
  : Z * option statsd_datagram :=
  match parse max_size buffer with
  | Parsed d => (1, Some d)
  | Failure _ => (0, None)
  end.

(** The datagrams a call hands to its caller. *)
Definition yielded (r : Z * option statsd_datagram) : list statsd_datagram :=
  match snd r with
  | Some d => [d]
  | None => []
  end.

(** The statements of a buffer: the lines between newlines. *)
Definition statements (buffer : list byte) : list (list byte) :=
  split_all x0a buffer.

(** The interface of parser-basic.h over any body of the parser: the
    [int] returned and the one placeholder, whatever the body does with
    the buffer.  [basic_parser_parse] is this call with [parse] as the
    body. *)
Definition header_call (body : list byte -> parse_result)
    (buffer : list byte) : Z * option statsd_datagram :=
  match body buffer with
  | Parsed d => (1, Some d)
  | Failure _ => (0, None)
  end.

End Statsd.

(** ** Inputs used in the worked cases *)

(** [MAXPATHLEN] on Linux, and the numbers of the file
    "350735.47 234388.90\n". *)
Definition PATH_MAX_linux : nat := 4096.

Definition lit_uptime : Libc.literal :=
  {| Libc.l_sign := [];
     Libc.l_int := bytes "350735";
     Libc.l_frac := Some (bytes "47");
     Libc.l_exp := None |}.

Definition lit_idle : Libc.literal :=
  {| Libc.l_sign := [];
     Libc.l_int := bytes "234388";
     Libc.l_frac := Some (bytes "90");
     Libc.l_exp := None |}.

Definition lit_zero : Libc.literal :=
  {| Libc.l_sign := [];
     Libc.l_int := bytes "0";
     Libc.l_frac := None;
     Libc.l_exp := None |}.

(** A structure that holds values of an earlier call. *)
Definition stale : proc_uptime_t Q :=
  {| uptime := Qmake 7 1; idletime := Qmake 8 1 |}.

(** [refresh_proc_uptime] with rational numbers in the place of
    [double]s, on Linux, with an empty [linux_statspath]. *)
Definition refresh_Q : os_model -> (nat -> byte) -> proc_uptime_t Q
                       -> M (Z * proc_uptime_t Q) :=
  refresh_proc_uptime Q (Qmake 0 1) PATH_MAX_linux []
    (sscanf_lf_lf Q Decimal.decimal_value).

(** The maximum datagram size of the worked cases. *)
Definition max_udp : nat := 1472.

(** ** Other layouts of the uptime file, and other systems *)

(** Two numbers with white space [ws1] before them and [ws2] between
    them, then [tail], then one last byte. *)
Definition uptime_layout (ws1 : list byte) (a : Libc.literal)
    (ws2 : list byte) (b : Libc.literal) (tail : list byte) (c : byte)
  : list byte :=
  ws1 ++ Libc.render a ++ ws2 ++ Libc.render b ++ tail ++ [c].

(** One number, white space, one last byte. *)
Definition single_number_text (a : Libc.literal) (ws : list byte) (c : byte)
  : list byte :=
  Libc.render a ++ ws ++ [c].

(** A system that gives the three answers written. *)
Definition os_answers (o : sysret nat) (r : sysret (list byte))
    (c : sysret unit) : os_model :=
  {| os_open := fun _ => o;
     os_read := fun _ => r;
     os_close := fun _ => c |}.

(** The number 2.5, and a structure of an earlier call with other
    values. *)
Definition lit_two_half : Libc.literal :=
  {| Libc.l_sign := [];
     Libc.l_int := bytes "2";
     Libc.l_frac := Some (bytes "5");
     Libc.l_exp := None |}.

Definition stale2 : proc_uptime_t Q :=
  {| uptime := Qmake 1 3; idletime := Qmake 2 3 |}.

Definition garbage1 : nat -> byte := fun i => if Nat.even i then x31 else x00.

(** The bytes that a number, an infinity or a NaN can start with: a
    sign, a digit, the point, and [i] or [n] in either case. *)
Definition can_start_number (c : byte) : bool :=
  Libc.is_sign c || Libc.isdigit c || Libc.is_point c
  || Byte.eqb (Libc.tolower c) x69 || Byte.eqb (Libc.tolower c) x6e.

Definition lit_one : Libc.literal :=
  {| Libc.l_sign := [];
     Libc.l_int := bytes "1";
     Libc.l_frac := None;
     Libc.l_exp := None |}.

(** ** The scanner accepts the decimal grammar *)

Module LibcFacts.
Import Libc.

Lemma digit_classes c :
  isdigit c = true ->
  is_sign c = false /\ is_point c = false /\ is_exp_mark c = false
  /\ isspace c = false /\ is_nul c = false /\ is_x c = false.
Proof. destruct c; simpl; intros H; try discriminate H; repeat split. Qed.

Lemma digit_letters c :
  isdigit c = true ->
  Byte.eqb (tolower c) x69 = false /\ Byte.eqb (tolower c) x6e = false.
Proof. destruct c; simpl; intros H; try discriminate H; split; reflexivity. Qed.

Lemma sign_classes c :
  is_sign c = true ->
  isdigit c = false /\ isspace c = false /\ is_nul c = false.
Proof. destruct c; simpl; intros H; try discriminate H; repeat split. Qed.

Lemma exp_mark_classes c :
  is_exp_mark c = true ->
  isdigit c = false /\ is_point c = false /\ isspace c = false
  /\ is_nul c = false /\ is_x c = false.
Proof. destruct c; simpl; intros H; try discriminate H; repeat split. Qed.

Lemma space_classes c :
  isspace c = true ->
  isdigit c = false /\ is_sign c = false /\ is_point c = false
  /\ is_exp_mark c = false /\ is_x c = false.
Proof. destruct c; simpl; intros H; try discriminate H; repeat split. Qed.

Lemma span_app p (l r : list byte) :
  forallb p l = true -> head_not p r -> span p (l ++ r) = (l, r).
Proof.
  intros Hl Hr. induction l as [|c l IH]; simpl in *.
  - destruct r as [|c r]; [reflexivity|]. simpl in *. now rewrite Hr.
  - apply andb_true_iff in Hl as [Hc Hl]. now rewrite Hc, IH.
Qed.

Lemma opt_sign_app (sg r : list byte) :
  wf_sign sg = true -> head_not is_sign r ->
  opt_sign (sg ++ r) = (sg, r).
Proof.
  intros Hs Hr. destruct sg as [|c [|c' sg]]; simpl in *.
  - destruct r as [|c r]; [reflexivity|]. simpl in *. now rewrite Hr.
  - now rewrite Hs.
  - discriminate.
Qed.

Lemma head_not_app p (l r : list byte) :
  head_not p l -> (l = [] -> head_not p r) -> head_not p (l ++ r).
Proof. destruct l; simpl; auto. Qed.

Lemma head_not_digits p (l : list byte) :
  (forall c, isdigit c = true -> p c = false) ->
  forallb isdigit l = true -> head_not p l.
Proof.
  intros Hp. destruct l as [|c l]; simpl; [trivial|].
  intros [Hc _]%andb_true_iff. auto.
Qed.

Lemma head_not_delimited p (r : list byte) :
  (forall c, isspace c = true -> p c = false) ->
  delimited r = true -> head_not p r.
Proof. intros Hp. destruct r as [|c r]; simpl; auto. Qed.

Lemma head_not_frac p (f : option (list byte)) :
  p x2e = false -> head_not p (render_frac f).
Proof. destruct f; simpl; auto. Qed.

Lemma head_not_exp p e :
  (forall c, is_exp_mark c = true -> p c = false) ->
  match e with
  | Some (m, _, _) => is_exp_mark m = true
  | None => True
  end ->
  head_not p (render_exp e).
Proof. destruct e as [[[m sg] ds]|]; simpl; auto. Qed.

Lemma opt_exponent_render e (rest : list byte) :
  match e with
  | Some (m, sg, ds) =>
      is_exp_mark m && wf_sign sg && forallb isdigit ds && nonempty ds
  | None => true
  end = true ->
  delimited rest = true ->
  opt_exponent is_exp_mark (render_exp e ++ rest)
  = Some (render_exp e, rest).
Proof.
  intros He Hr. destruct e as [[[m sg] ds]|]; simpl.
  - repeat (apply andb_true_iff in He as [He ?]).
    rewrite He. rewrite <- app_assoc, opt_sign_app; trivial.
    + rewrite span_app; trivial.
      * destruct ds; [discriminate|reflexivity].
      * apply head_not_delimited; trivial.
        intros c Hc. apply space_classes in Hc. tauto.
    + apply head_not_app.
      * apply head_not_digits; trivial.
        intros c Hc. apply digit_classes in Hc. tauto.
      * intros ->. discriminate.
  - destruct rest as [|c rest]; [reflexivity|]. simpl in *.
    apply space_classes in Hr as (_ & _ & _ & -> & _). reflexivity.
Qed.

Lemma render_unsigned (l : literal) : render l = l_sign l ++ unsigned l.
Proof. reflexivity. Qed.

Lemma exp_mark_of_wf ep :
  match ep with
  | Some (m, sg, ds) =>
      is_exp_mark m && wf_sign sg && forallb isdigit ds && nonempty ds
  | None => true
  end = true ->
  match ep with
  | Some (m, _, _) => is_exp_mark m = true
  | None => True
  end.
Proof.
  destruct ep as [[[m s] d]|]; [|trivial]. intros Hep.
  repeat (apply andb_true_iff in Hep as [Hep ?]). assumption.
Qed.

(** What follows the integer digits does not start with a byte of the
    class [p], when neither the point, nor an exponent mark, nor white
    space is in [p]. *)
Lemma head_not_tail p fp ep (rest : list byte) :
  p x2e = false ->
  (forall c, is_exp_mark c = true -> p c = false) ->
  (forall c, isspace c = true -> p c = false) ->
  match ep with
  | Some (m, _, _) => is_exp_mark m = true
  | None => True
  end ->
  delimited rest = true ->
  head_not p (render_frac fp ++ render_exp ep ++ rest).
Proof.
  intros Hpt Hem Hsp Hep Hr.
  apply head_not_app; [now apply head_not_frac|]. intros _.
  apply head_not_app; [now apply head_not_exp|]. intros _.
  now apply head_not_delimited.
Qed.

Lemma scan_decimal_unsigned (l : literal) (rest : list byte) :
  wf_literal l = true -> delimited rest = true ->
  scan_decimal (unsigned l ++ rest) = Some (unsigned l, rest).
Proof.
  destruct l as [sg ip fp ep]. unfold wf_literal, unsigned. simpl.
  intros Hw Hr.
  apply andb_true_iff in Hw as [Hw Hep].
  apply andb_true_iff in Hw as [Hw Hfp].
  apply andb_true_iff in Hw as [Hsg Hip].
  pose proof (exp_mark_of_wf ep Hep) as Hepm.
  unfold scan_decimal, scan_digits_exp. rewrite <- !app_assoc.
  rewrite span_app; trivial.
  2:{ apply head_not_tail; trivial.
      - intros c Hc. apply exp_mark_classes in Hc. tauto.
      - intros c Hc. apply space_classes in Hc. tauto. }
  destruct fp as [f|]; simpl.
  - apply andb_true_iff in Hfp as [Hf Hne].
    rewrite span_app; trivial.
    2:{ apply head_not_app.
        - apply head_not_exp; trivial.
          intros c Hc. apply exp_mark_classes in Hc. tauto.
        - intros _. apply head_not_delimited; trivial.
          intros c Hc. apply space_classes in Hc. tauto. }
    rewrite opt_exponent_render; trivial.
    destruct ip as [|i ip]; [destruct f as [|d f]; [discriminate|]|];
      reflexivity.
  - assert (Hof : opt_fraction isdigit (render_exp ep ++ rest)
                  = ([], render_exp ep ++ rest)).
    { destruct ep as [[[m s] d]|]; simpl.
      - apply exp_mark_classes in Hepm as (_ & -> & _). reflexivity.
      - destruct rest as [|c rest]; [reflexivity|]. simpl in *.
        apply space_classes in Hr as (_ & _ & -> & _). reflexivity. }
    rewrite Hof, opt_exponent_render; trivial.
    destruct ip as [|i ip]; [discriminate|]. reflexivity.
Qed.

Lemma is_hex_prefix_cons c (s : list byte) :
  head_not is_x s -> is_hex_prefix (c :: s) = false.
Proof.
  intros H. destruct s as [|c' s]; simpl in *.
  - now destruct c.
  - rewrite H. now destruct c.
Qed.

(** A decimal number does not start like [inf], [nan] or [0x]. *)
Lemma decimal_not_special (l : literal) (rest : list byte) :
  wf_literal l = true -> delimited rest = true ->
  starts_with_ci x69 (unsigned l ++ rest) = false
  /\ starts_with_ci x6e (unsigned l ++ rest) = false
  /\ is_hex_prefix (unsigned l ++ rest) = false.
Proof.
  destruct l as [sg ip fp ep]. unfold wf_literal, unsigned. simpl.
  intros Hw Hr.
  apply andb_true_iff in Hw as [Hw Hep].
  apply andb_true_iff in Hw as [Hw Hfp].
  apply andb_true_iff in Hw as [Hsg Hip].
  pose proof (exp_mark_of_wf ep Hep) as Hepm.
  destruct ip as [|i ip]; simpl.
  - destruct fp as [f|]; [|discriminate]. simpl. auto.
  - simpl in Hip. apply andb_true_iff in Hip as [Hi Hip].
    apply digit_letters in Hi as (-> & ->). split; [|split]; trivial.
    apply is_hex_prefix_cons. rewrite <- !app_assoc.
    apply head_not_app.
    + apply head_not_digits; trivial.
      intros c Hc. apply digit_classes in Hc. tauto.
    + intros _. apply head_not_tail; trivial.
      * intros c Hc. apply exp_mark_classes in Hc. tauto.
      * intros c Hc. apply space_classes in Hc. tauto.
Qed.

(** What the model does with inputs that are not decimal numbers, or
    are only the start of a number. *)
Lemma scan_float_cases :
  scan_float (bytes "1.5 2") = Some (bytes "1.5", bytes " 2")
  /\ scan_float (bytes "-.5e+3x") = Some (bytes "-.5e+3", bytes "x")
  /\ scan_float (bytes "INFINITY,") = Some (bytes "INFINITY", bytes ",")
  /\ scan_float (bytes "nan(q_1)") = Some (bytes "nan(q_1)", [])
  /\ scan_float (bytes "0x1.8p3 ") = Some (bytes "0x1.8p3", bytes " ")
  /\ scan_float (bytes "garbage") = None
  /\ scan_float (bytes "1e+") = None
  /\ scan_float (bytes "0x") = None
  /\ scan_float (bytes "infin") = None
  /\ scan_float (bytes "-") = None.
Proof. repeat split; vm_compute; reflexivity. Qed.

Lemma scan_float_render (l : literal) (rest : list byte) :
  wf_literal l = true -> delimited rest = true ->
  scan_float (render l ++ rest) = Some (render l, rest).
Proof.
  intros Hw Hr.
  pose proof (scan_decimal_unsigned l rest Hw Hr) as Hd.
  destruct (decimal_not_special l rest Hw Hr) as (Hi & Hn & Hx).
  assert (Hsg : wf_sign (l_sign l) = true).
  { unfold wf_literal in Hw.
    repeat (apply andb_true_iff in Hw as [Hw ?]). assumption. }
  assert (Hhd : head_not is_sign (unsigned l ++ rest)).
  { destruct l as [sg ip fp ep]. unfold wf_literal, unsigned in *.
    simpl in *.
    apply andb_true_iff in Hw as [Hw Hep].
    apply andb_true_iff in Hw as [Hw Hfp].
    apply andb_true_iff in Hw as [_ Hip].
    rewrite <- !app_assoc. apply head_not_app.
    - apply head_not_digits; trivial.
      intros c Hc. apply digit_classes in Hc. tauto.
    - intros ->. destruct fp as [f|]; [reflexivity|discriminate]. }
  unfold scan_float. rewrite render_unsigned, <- app_assoc.
  rewrite opt_sign_app by assumption.
  now rewrite Hi, Hn, Hx, Hd.
Qed.

Lemma no_nul_digits (l : list byte) :
  forallb isdigit l = true -> no_nul l = true.
Proof.
  unfold no_nul. induction l as [|c l IH]; simpl; [reflexivity|].
  intros [Hc Hl]%andb_true_iff.
  apply digit_classes in Hc as (_ & _ & _ & _ & -> & _). simpl. auto.
Qed.

Lemma no_nul_sign (sg : list byte) : wf_sign sg = true -> no_nul sg = true.
Proof.
  destruct sg as [|c [|c' sg]]; simpl; try reflexivity; try discriminate.
  intros Hc. apply sign_classes in Hc as (_ & _ & ->). reflexivity.
Qed.

Lemma no_nul_app (l r : list byte) :
  no_nul l = true -> no_nul r = true -> no_nul (l ++ r) = true.
Proof. unfold no_nul. intros Hl Hr. now rewrite forallb_app, Hl, Hr. Qed.

Lemma render_no_nul (l : literal) :
  wf_literal l = true -> no_nul (render l) = true.
Proof.
  destruct l as [sg ip fp ep]. unfold wf_literal, render. simpl.
  intros Hw.
  apply andb_true_iff in Hw as [Hw Hep].
  apply andb_true_iff in Hw as [Hw Hfp].
  apply andb_true_iff in Hw as [Hsg Hip].
  repeat apply no_nul_app.
  - now apply no_nul_sign.
  - now apply no_nul_digits.
  - destruct fp as [f|]; [|reflexivity].
    apply andb_true_iff in Hfp as [Hf _].
    apply (no_nul_app [x2e] f); [reflexivity|now apply no_nul_digits].
  - destruct ep as [[[m s] d]|]; [|reflexivity].
    repeat (apply andb_true_iff in Hep as [Hep ?]).
    apply (no_nul_app [m] (s ++ d)).
    + unfold no_nul. simpl.
      apply exp_mark_classes in Hep as (_ & _ & _ & -> & _). reflexivity.
    + apply no_nul_app; [now apply no_nul_sign|now apply no_nul_digits].
Qed.

(** A number starts with a byte that is not white space. *)
Lemma render_head (l : literal) :
  wf_literal l = true ->
  exists c t, render l = c :: t /\ isspace c = false.
Proof.
  destruct l as [sg ip fp ep]. unfold wf_literal, render. simpl.
  intros Hw.
  apply andb_true_iff in Hw as [Hw Hep].
  apply andb_true_iff in Hw as [Hw Hfp].
  apply andb_true_iff in Hw as [Hsg Hip].
  destruct sg as [|s [|s' sg]]; simpl in *; try discriminate.
  - destruct ip as [|i ip]; simpl in *.
    + destruct fp as [f|]; [|discriminate]. simpl. eauto.
    + apply andb_true_iff in Hip as [Hi _].
      apply digit_classes in Hi as (_ & _ & _ & Hi & _). eauto.
  - apply sign_classes in Hsg as (_ & Hs & _). eauto.
Qed.

Lemma conv_lf_render (l : literal) (rest : list byte) :
  wf_literal l = true -> delimited rest = true ->
  conv_lf (render l ++ rest) = Converted (render l) rest.
Proof.
  intros Hw Hr. unfold conv_lf.
  destruct (render_head l Hw) as (c & t & E & Hc).
  assert (Hs : skip_space (render l ++ rest) = render l ++ rest)
    by (rewrite E; simpl; now rewrite Hc).
  pose proof (scan_float_render l rest Hw Hr) as Hsc.
  rewrite Hs. rewrite E in Hsc |- *. simpl in Hsc |- *.
  now rewrite Hsc.
Qed.

Lemma skip_space_render (l : literal) (rest : list byte) :
  wf_literal l = true ->
  skip_space (render l ++ rest) = render l ++ rest.
Proof.
  intros Hw. destruct (render_head l Hw) as (c & t & E & Hc).
  rewrite E. simpl. now rewrite Hc.
Qed.

Lemma conv_lf_render_end (l : literal) :
  wf_literal l = true -> conv_lf (render l) = Converted (render l) [].
Proof.
  intros Hw. pose proof (conv_lf_render l [] Hw eq_refl) as H.
  now rewrite app_nil_r in H.
Qed.

Lemma skip_space_render_end (l : literal) :
  wf_literal l = true -> skip_space (render l) = render l.
Proof.
  intros Hw. pose proof (skip_space_render l [] Hw) as H.
  now rewrite app_nil_r in H.
Qed.

End LibcFacts.

(** * Properties *)

(** ** Buffers *)

Lemma is_nul_NUL : is_nul NUL = true.
Proof. reflexivity. Qed.

Lemma c_str_app_nul (l1 l2 : list byte) :
  c_str (l1 ++ NUL :: l2) = Some (until_nul l1).
Proof.
  induction l1 as [|b l1 IH]; simpl.
  - reflexivity.
  - destruct (is_nul b); [reflexivity|]. now rewrite IH.
Qed.

Lemma until_nul_app (l1 l2 : list byte) :
  forallb (fun b => negb (is_nul b)) l1 = true ->
  until_nul (l1 ++ l2) = l1 ++ until_nul l2.
Proof.
  induction l1 as [|b l1 IH]; simpl; [reflexivity|].
  intros [Hb Hl]%andb_true_iff. apply negb_true_iff in Hb.
  now rewrite Hb, IH.
Qed.

Lemma length_stack_array (g : nat -> byte) (n : nat) :
  length (stack_array g n) = n.
Proof. unfold stack_array. now rewrite length_map, length_seq. Qed.

Lemma length_pmsprintf (buf : list byte) (size : nat) (text : list byte) :
  (size <= length buf)%nat -> length (pmsprintf buf size text) = length buf.
Proof.
  destruct size as [|m]; [reflexivity|]. intros H. unfold pmsprintf.
  set (out := take m text ++ [NUL]).
  assert (length out <= S m)%nat
    by (subst out; rewrite length_app, length_take; simpl; lia).
  rewrite length_app, length_drop. lia.
Qed.

Lemma c_str_pmsprintf (buf : list byte) (size : nat) (text : list byte) :
  (0 < size)%nat ->
  c_str (pmsprintf buf size text) = Some (until_nul (take (size - 1) text)).
Proof.
  destruct size as [|m]; [lia|]. intros _. simpl.
  rewrite <- app_assoc. simpl. rewrite c_str_app_nul.
  now replace (m - 0)%nat with m by lia.
Qed.

Lemma all_but_last_snoc (d : list byte) (b : byte) :
  all_but_last (d ++ [b]) = d.
Proof.
  unfold all_but_last. rewrite length_app. simpl.
  replace (length d + 1 - 1)%nat with (length d) by lia.
  now rewrite take_app_length.
Qed.

Lemma int_of_small (z : Z) : 0 <= z <= INT_MAX -> int_of z = z.
Proof.
  unfold int_of, INT_MAX. intros H.
  rewrite Z.mod_small by lia. lia.
Qed.

(** The terminator stored after a read of [d] into [buf] leaves, as a C
    string, the bytes of [d] before its last one. *)
Lemma store_after_read (d buf : list byte) (w : world) :
  (0 < length buf)%nat -> (length d <= length buf)%nat ->
  bind (store (d ++ drop (length d) buf)
              (adjust (Z.of_nat (length d))) NUL)
       (fun b => lift (c_str b)) w
  = Some (until_nul (all_but_last d), w).
Proof.
  intros Hb Hd. unfold bind, store, adjust, all_but_last.
  assert (Hlen : length (d ++ drop (length d) buf) = length buf)
    by (rewrite length_app, length_drop; lia).
  rewrite Hlen.
  destruct d as [|c d].
  - simpl. destruct buf as [|b0 buf]; [simpl in Hb; lia|].
    reflexivity.
  - set (l := c :: d) in *.
    assert (Hl : (0 < length l)%nat) by (subst l; simpl; lia).
    replace (0 <? Z.of_nat (length l)) with true
      by (symmetry; apply Z.ltb_lt; lia).
    replace ((0 <=? Z.of_nat (length l) - 1)
             && (Z.of_nat (length l) - 1 <? Z.of_nat (length buf)))
      with true
      by (symmetry; apply andb_true_iff; split;
          [apply Z.leb_le | apply Z.ltb_lt]; lia).
    unfold ret, lift.
    replace (Z.to_nat (Z.of_nat (length l) - 1)) with (length l - 1)%nat
      by lia.
    rewrite insert_app_l by lia.
    rewrite insert_take_drop by lia.
    rewrite <- app_assoc. simpl. now rewrite c_str_app_nul.
Qed.

Lemma sys_close_after (os : os_model) (fd : Z) (w : world) :
  exists r, sys_close os fd w = Some (r, after_close os fd w).
Proof.
  unfold sys_close, after_close. destruct (os_close os fd); eauto.
Qed.

(** ** [refresh_proc_uptime], path by path *)

Section ProcUptimeRuns.

Variable double : Type.
Variable dzero : double.
Variable MAXPATHLEN : nat.
Variable linux_statspath : list byte.
Variable sscanf : list byte -> proc_uptime_t double
                  -> Z * proc_uptime_t double.

Hypothesis MAXPATHLEN_pos : (0 < MAXPATHLEN)%nat.

Local Abbreviation refresh :=
  (refresh_proc_uptime double dzero MAXPATHLEN linux_statspath sscanf).
Local Abbreviation path := (uptime_path MAXPATHLEN linux_statspath).

Lemma run_open_failed os g pu w e :
  os_open os path = Failed e ->
  refresh os g pu w
  = Some ((- Z.pos e, zeroed dzero),
          set_errno (Z.pos e) (log (EvOpen path) w)).
Proof.
  intros Ho.
  unfold refresh_proc_uptime, bind at 1.
  rewrite c_str_pmsprintf by assumption. cbn [lift].
  unfold bind at 1, sys_open. fold (uptime_path MAXPATHLEN linux_statspath).
  rewrite Ho. reflexivity.
Qed.

Lemma run_read_failed os g pu w fd e :
  os_open os path = Done fd ->
  os_read os (Z.of_nat fd) = Failed e ->
  let w' := after_close os (Z.of_nat fd)
              (set_errno (Z.pos e)
                 (log (EvRead (Z.of_nat fd) MAXPATHLEN)
                      (log (EvOpen path) w))) in
  refresh os g pu w = Some ((- w_errno w', zeroed dzero), w').
Proof.
  intros Ho Hr.
  unfold refresh_proc_uptime, bind at 1.
  rewrite c_str_pmsprintf by assumption. cbn [lift].
  unfold bind at 1, sys_open. fold (uptime_path MAXPATHLEN linux_statspath).
  rewrite Ho.
  replace (Z.of_nat fd <? 0) with false by (symmetry; apply Z.ltb_ge; lia).
  unfold bind at 1, sys_read. rewrite Hr. cbn [fst snd].
  unfold bind at 1.
  match goal with |- context [sys_close ?o ?f ?x] =>
    destruct (sys_close_after o f x) as [r ->] end.
  reflexivity.
Qed.

Hypothesis MAXPATHLEN_int : Z.of_nat MAXPATHLEN <= INT_MAX.

Lemma run_read_done os g pu w fd data :
  os_open os path = Done fd ->
  os_read os (Z.of_nat fd) = Done data ->
  refresh os g pu w
  = Some ((0, snd (sscanf
                     (until_nul (all_but_last (take MAXPATHLEN data)))
                     (zeroed dzero))),
          after_close os (Z.of_nat fd)
            (log (EvRead (Z.of_nat fd) MAXPATHLEN) (log (EvOpen path) w))).
Proof.
  intros Ho Hr.
  unfold refresh_proc_uptime, bind at 1.
  rewrite c_str_pmsprintf by assumption. cbn [lift].
  unfold bind at 1, sys_open. fold (uptime_path MAXPATHLEN linux_statspath).
  rewrite Ho.
  replace (Z.of_nat fd <? 0) with false by (symmetry; apply Z.ltb_ge; lia).
  unfold bind at 1, sys_read. rewrite Hr. cbn [fst snd].
  unfold bind at 1.
  match goal with |- context [sys_close ?o ?f ?x] =>
    destruct (sys_close_after o f x) as [r ->] end.
  set (d := take MAXPATHLEN data).
  assert (Hd : (length d <= MAXPATHLEN)%nat)
    by (subst d; rewrite length_take; lia).
  rewrite int_of_small by lia.
  replace (Z.of_nat (length d) <? 0) with false
    by (symmetry; apply Z.ltb_ge; lia).
  set (buf := pmsprintf _ _ _).
  assert (Hbuf : length buf = MAXPATHLEN)
    by (subst buf; rewrite length_pmsprintf;
        rewrite length_stack_array; lia).
  pose proof (store_after_read d buf) as Hs.
  rewrite Hbuf in Hs.
  unfold bind in Hs |- *.
  match goal with |- context [store ?b ?n ?v ?x] =>
    specialize (Hs x MAXPATHLEN_pos Hd);
    destruct (store b n v x) as [[b' w1]|]; [|discriminate] end.
  unfold lift in Hs |- *.
  destruct (c_str b'); [|discriminate].
  injection Hs as -> ->. reflexivity.
Qed.

Lemma trace_after_close os fd w :
  w_trace (after_close os fd w) = w_trace w ++ [EvClose fd].
Proof. unfold after_close. now destruct (os_close os fd). Qed.

Lemma errno_after_close os fd w :
  w_errno (after_close os fd w)
  = match os_close os fd with
    | Failed e => Z.pos e
    | Done _ => w_errno w
    end.
Proof. unfold after_close. now destruct (os_close os fd). Qed.

End ProcUptimeRuns.

(** ** Claims on [refresh_proc_uptime] *)

Section ProcUptimeClaims.

Variable double : Type.
Variable dzero : double.
Variable MAXPATHLEN : nat.
Variable linux_statspath : list byte.

(** Any [sscanf], and the one modelled for a given [strtod]. *)
Variable sscanf : list byte -> proc_uptime_t double
                  -> Z * proc_uptime_t double.
Variable strtod : list byte -> double.

Local Abbreviation refresh :=
  (refresh_proc_uptime double dzero MAXPATHLEN linux_statspath sscanf).
Local Abbreviation refresh_model :=
  (refresh_proc_uptime double dzero MAXPATHLEN linux_statspath
     (sscanf_lf_lf double strtod)).
Local Abbreviation path := (uptime_path MAXPATHLEN linux_statspath).

Lemma sscanf_two_numbers (a b : Libc.literal) (pu : proc_uptime_t double) :
  Libc.wf_literal a = true -> Libc.wf_literal b = true ->
  sscanf_lf_lf double strtod (Libc.render a ++ [x20] ++ Libc.render b) pu
  = (2, {| uptime := strtod (Libc.render a);
           idletime := strtod (Libc.render b) |}).
Proof.
  intros Ha Hb. unfold sscanf_lf_lf.
  rewrite LibcFacts.conv_lf_render by (trivial; reflexivity).
  change (Libc.skip_space ([x20] ++ Libc.render b))
    with (Libc.skip_space (Libc.render b)).
  rewrite LibcFacts.skip_space_render_end by trivial.
  rewrite LibcFacts.conv_lf_render_end by trivial.
  reflexivity.
Qed.

Lemma uptime_text_scanned (a b : Libc.literal) :
  Libc.wf_literal a = true -> Libc.wf_literal b = true ->
  until_nul (all_but_last (uptime_text a b))
  = Libc.render a ++ [x20] ++ Libc.render b.
Proof.
  intros Ha Hb. unfold uptime_text.
  replace (Libc.render a ++ [x20] ++ Libc.render b ++ [x0a])
    with ((Libc.render a ++ [x20] ++ Libc.render b) ++ [x0a])
    by (now rewrite <- !app_assoc).
  rewrite all_but_last_snoc.
  rewrite <- (app_nil_r (Libc.render a ++ [x20] ++ Libc.render b)) at 1.
  rewrite until_nul_app; [now rewrite app_nil_r|].
  apply LibcFacts.no_nul_app; [now apply LibcFacts.render_no_nul|].
  apply (LibcFacts.no_nul_app [x20]);
    [reflexivity|now apply LibcFacts.render_no_nul].
Qed.

(** C2: when the file holds two decimal numbers in the format "A B\n"
    and the read delivers it, [refresh_proc_uptime] reads the file once,
    stores the first number in [uptime] and the second in [idletime],
    and returns 0. *)
Theorem refresh_stores_both_numbers os g pu w fd (a b : Libc.literal) :
  (0 < MAXPATHLEN)%nat ->
  Z.of_nat MAXPATHLEN <= INT_MAX ->
  Libc.wf_literal a = true ->
  Libc.wf_literal b = true ->
  (length (uptime_text a b) <= MAXPATHLEN)%nat ->
  os_open os path = Done fd ->
  os_read os (Z.of_nat fd) = Done (uptime_text a b) ->
  exists w',
    refresh_model os g pu w
    = Some ((0, {| uptime := strtod (Libc.render a);
                   idletime := strtod (Libc.render b) |}), w')
    /\ w_trace w'
       = w_trace w ++ [EvOpen path; EvRead (Z.of_nat fd) MAXPATHLEN;
                       EvClose (Z.of_nat fd)].
Proof.
  intros Hpos Hint Ha Hb Hlen Ho Hr.
  eexists. split.
  - rewrite (run_read_done _ _ _ _ _ Hpos Hint _ _ _ _ _ _ Ho Hr).
    rewrite take_ge by lia.
    rewrite uptime_text_scanned, sscanf_two_numbers by trivial.
    reflexivity.
  - rewrite trace_after_close. unfold log. simpl.
    now rewrite <- !app_assoc.
Qed.

(** C7: when the uptime file cannot be opened, or cannot be read,
    [refresh_proc_uptime] returns once, without another attempt, and
    the value returned is the negated OS error code, a negative
    number. *)
Theorem refresh_io_error_negated_errno os g pu w :
  (0 < MAXPATHLEN)%nat ->
  (forall e, os_open os path = Failed e ->
     refresh os g pu w
     = Some ((- Z.pos e, zeroed dzero),
             {| w_errno := Z.pos e;
                w_trace := w_trace w ++ [EvOpen path] |}))
  /\ (forall fd e,
        os_open os path = Done fd ->
        os_read os (Z.of_nat fd) = Failed e ->
        exists w',
          refresh os g pu w = Some ((- w_errno w', zeroed dzero), w')
          /\ - w_errno w' < 0
          /\ w_trace w'
             = w_trace w ++ [EvOpen path; EvRead (Z.of_nat fd) MAXPATHLEN;
                             EvClose (Z.of_nat fd)]).
Proof.
  intros Hpos. split.
  - intros e Ho. now rewrite (run_open_failed _ _ _ _ _ Hpos _ _ _ _ _ Ho).
  - intros fd e Ho Hr. eexists. split; [|split].
    + apply (run_read_failed _ _ _ _ _ Hpos _ _ _ _ _ _ Ho Hr).
    + rewrite errno_after_close.
      destruct (os_close os (Z.of_nat fd)); simpl; lia.
    + rewrite trace_after_close. unfold set_errno, log. simpl.
      now rewrite <- !app_assoc.
Qed.

(** C8: the structure is zeroed before any I/O, so on every error
    return, after a failed open or a failed read, the caller's
    structure holds [uptime = 0] and [idletime = 0], whatever it held
    before the call. *)
Theorem refresh_error_leaves_zeroes os g pu w :
  (0 < MAXPATHLEN)%nat ->
  (exists e, os_open os path = Failed e)
  \/ (exists fd e, os_open os path = Done fd
                   /\ os_read os (Z.of_nat fd) = Failed e) ->
  exists ret w',
    refresh os g pu w
    = Some ((ret, {| uptime := dzero; idletime := dzero |}), w')
    /\ ret < 0.
Proof.
  intros Hpos [[e Ho]|(fd & e & Ho & Hr)].
  - eexists _, _. split.
    + apply (run_open_failed _ _ _ _ _ Hpos _ _ _ _ _ Ho).
    + lia.
  - eexists _, _. split.
    + apply (run_read_failed _ _ _ _ _ Hpos _ _ _ _ _ _ Ho Hr).
    + rewrite errno_after_close.
      destruct (os_close os (Z.of_nat fd)); simpl; lia.
Qed.

(** C9: the store of the terminator is inside the buffer.  For every
    count [n] that a successful read returns, [0 <= n <= sizeof(buf)],
    the index after the decrement satisfies [0 <= n < sizeof(buf)]; the
    call then goes on without a fault, and what [sscanf] gets is the
    content read without its last byte. *)
Theorem terminator_store_in_bounds :
  (0 < MAXPATHLEN)%nat ->
  Z.of_nat MAXPATHLEN <= INT_MAX ->
  (forall n, 0 <= n <= Z.of_nat MAXPATHLEN ->
     0 <= adjust n < Z.of_nat MAXPATHLEN)
  /\ (forall os g pu w fd data,
        os_open os path = Done fd ->
        os_read os (Z.of_nat fd) = Done data ->
        exists w',
          refresh os g pu w
          = Some ((0, snd (sscanf
                             (until_nul
                                (all_but_last (take MAXPATHLEN data)))
                             (zeroed dzero))), w'))
  /\ (forall (d : list byte) (last : byte), all_but_last (d ++ [last]) = d).
Proof.
  intros Hpos Hint. split; [|split].
  - intros n Hn. unfold adjust. destruct (0 <? n) eqn:E.
    + apply Z.ltb_lt in E. lia.
    + apply Z.ltb_ge in E. lia.
  - intros os g pu w fd data Ho Hr. eexists.
    apply (run_read_done _ _ _ _ _ Hpos Hint _ _ _ _ _ _ Ho Hr).
  - apply all_but_last_snoc.
Qed.

(** C1, as the code has it: only the file that cannot be opened or read
    is signalled, by a negative value; once the read has succeeded the
    value returned is 0 whatever the content, and the structure is what
    [sscanf] made of the zeroed one. *)
Theorem refresh_signals_only_io_failure os g pu w :
  (0 < MAXPATHLEN)%nat ->
  Z.of_nat MAXPATHLEN <= INT_MAX ->
  (forall e, os_open os path = Failed e ->
     exists pu' w', refresh os g pu w = Some ((- Z.pos e, pu'), w'))
  /\ (forall fd e,
        os_open os path = Done fd ->
        os_read os (Z.of_nat fd) = Failed e ->
        exists ret pu' w',
          refresh os g pu w = Some ((ret, pu'), w') /\ ret < 0)
  /\ (forall fd data,
        os_open os path = Done fd ->
        os_read os (Z.of_nat fd) = Done data ->
        exists w',
          refresh os g pu w
          = Some ((0, snd (sscanf
                             (until_nul
                                (all_but_last (take MAXPATHLEN data)))
                             (zeroed dzero))), w')).
Proof.
  intros Hpos Hint. split; [|split].
  - intros e Ho. eexists _, _.
    apply (run_open_failed _ _ _ _ _ Hpos _ _ _ _ _ Ho).
  - intros fd e Ho Hr. eexists _, _, _. split.
    + apply (run_read_failed _ _ _ _ _ Hpos _ _ _ _ _ _ Ho Hr).
    + rewrite errno_after_close.
      destruct (os_close os (Z.of_nat fd)); simpl; lia.
  - intros fd data Ho Hr. eexists.
    apply (run_read_done _ _ _ _ _ Hpos Hint _ _ _ _ _ _ Ho Hr).
Qed.

End ProcUptimeClaims.

(** ** [refresh_proc_uptime] on concrete systems *)

Lemma refresh_stores_both_numbers_witness :
  exists w',
    refresh_Q (os_file (uptime_text lit_uptime lit_idle)) garbage0 stale world0
    = Some ((0, {| uptime := Decimal.decimal_value (bytes "350735.47");
                   idletime := Decimal.decimal_value (bytes "234388.90") |}),
            w')
    /\ w_trace w'
       = [EvOpen (bytes "/proc/uptime"); EvRead 3 4096; EvClose 3].
Proof.
  apply (refresh_stores_both_numbers Q (Qmake 0 1) PATH_MAX_linux []
           Decimal.decimal_value (os_file (uptime_text lit_uptime lit_idle))
           garbage0 stale world0 3%nat lit_uptime lit_idle).
  - apply Nat.ltb_lt. reflexivity.
  - apply Z.leb_le. reflexivity.
  - reflexivity.
  - reflexivity.
  - apply Nat.leb_le. reflexivity.
  - reflexivity.
  - reflexivity.
Defined.

Lemma refresh_io_error_negated_errno_witness :
  refresh_Q os_missing garbage0 stale world0
  = Some ((-2, zeroed (Qmake 0 1)),
          {| w_errno := 2; w_trace := [EvOpen (bytes "/proc/uptime")] |})
  /\ exists w',
       refresh_Q os_unreadable garbage0 stale world0
       = Some ((- w_errno w', zeroed (Qmake 0 1)), w')
       /\ - w_errno w' < 0
       /\ w_trace w'
          = [EvOpen (bytes "/proc/uptime"); EvRead 3 4096; EvClose 3].
Proof.
  assert (Hpos : (0 < PATH_MAX_linux)%nat) by (apply Nat.ltb_lt; reflexivity).
  split.
  - apply (proj1 (refresh_io_error_negated_errno Q (Qmake 0 1)
                    PATH_MAX_linux [] (sscanf_lf_lf Q Decimal.decimal_value)
                    os_missing garbage0 stale world0 Hpos) ENOENT).
    reflexivity.
  - apply (proj2 (refresh_io_error_negated_errno Q (Qmake 0 1)
                    PATH_MAX_linux [] (sscanf_lf_lf Q Decimal.decimal_value)
                    os_unreadable garbage0 stale world0 Hpos) 3%nat EIO);
      reflexivity.
Defined.

Lemma refresh_error_leaves_zeroes_witness :
  exists ret w',
    refresh_Q os_unreadable garbage0 stale world0
    = Some ((ret, {| uptime := Qmake 0 1; idletime := Qmake 0 1 |}), w')
    /\ ret < 0.
Proof.
  apply (refresh_error_leaves_zeroes Q (Qmake 0 1) PATH_MAX_linux []
           (sscanf_lf_lf Q Decimal.decimal_value) os_unreadable garbage0
           stale world0).
  - apply Nat.ltb_lt. reflexivity.
  - right. exists 3%nat, EIO. split; reflexivity.
Defined.

Lemma terminator_store_in_bounds_witness :
  0 <= adjust 4096 < 4096
  /\ 0 <= adjust 0 < 4096
  /\ exists w',
       refresh_Q (os_file (bytes "12.5 3.25")) garbage0 stale world0
       = Some ((0, {| uptime := Decimal.decimal_value (bytes "12.5");
                      idletime := Decimal.decimal_value (bytes "3.2") |}),
               w').
Proof.
  assert (Hpos : (0 < PATH_MAX_linux)%nat) by (apply Nat.ltb_lt; reflexivity).
  assert (Hint : Z.of_nat PATH_MAX_linux <= INT_MAX)
    by (apply Z.leb_le; reflexivity).
  destruct (terminator_store_in_bounds Q (Qmake 0 1) PATH_MAX_linux []
              (sscanf_lf_lf Q Decimal.decimal_value) Hpos Hint)
    as (Hadj & Hrun & _).
  split; [|split].
  - apply (Hadj 4096). split; [apply Z.leb_le | apply Z.leb_le]; reflexivity.
  - apply (Hadj 0). split; [apply Z.leb_le | apply Z.leb_le]; reflexivity.
  - apply (Hrun (os_file (bytes "12.5 3.25")) garbage0 stale world0 3%nat
             (bytes "12.5 3.25")); reflexivity.
Defined.

Lemma refresh_signals_only_io_failure_witness :
  exists w',
    refresh_Q (os_file (bytes "garbage")) garbage0 stale world0
    = Some ((0, zeroed (Qmake 0 1)), w').
Proof.
  assert (Hpos : (0 < PATH_MAX_linux)%nat) by (apply Nat.ltb_lt; reflexivity).
  assert (Hint : Z.of_nat PATH_MAX_linux <= INT_MAX)
    by (apply Z.leb_le; reflexivity).
  destruct (refresh_signals_only_io_failure Q (Qmake 0 1) PATH_MAX_linux []
              (sscanf_lf_lf Q Decimal.decimal_value)
              (os_file (bytes "garbage")) garbage0 stale world0 Hpos Hint)
    as (_ & _ & Hdone).
  apply (Hdone 3%nat (bytes "garbage")); reflexivity.
Defined.

(** The error number that [oserror()] reads is the one left by the last
    call: when [close] fails after [read] did, it is the one of [close]. *)
Lemma refresh_close_failure :
  refresh_Q os_close_fails garbage0 stale world0
  = Some ((-9, zeroed (Qmake 0 1)),
          {| w_errno := 9;
             w_trace := [EvOpen (bytes "/proc/uptime"); EvRead 3 4096;
                         EvClose 3] |}).
Proof. vm_compute. reflexivity. Qed.

(** C1, refuted as stated: a file whose content is no number at all is
    not signalled.  [sscanf] assigns no field, the call returns 0 as it
    does on success, and the caller gets exactly what the well-formed
    file "0 0\n" gives. *)
Lemma malformed_uptime_returns_success :
  fst (sscanf_lf_lf Q Decimal.decimal_value (bytes "garbage")
         (zeroed (Qmake 0 1))) = 0
  /\ refresh_Q (os_file (bytes "garbage" ++ [x0a])) garbage0 stale world0
     = Some ((0, zeroed (Qmake 0 1)),
             {| w_errno := 0;
                w_trace := [EvOpen (bytes "/proc/uptime"); EvRead 3 4096;
                            EvClose 3] |})
  /\ refresh_Q (os_file (uptime_text lit_zero lit_zero)) garbage0 stale world0
     = refresh_Q (os_file (bytes "garbage" ++ [x0a])) garbage0 stale world0.
Proof. repeat split; vm_compute; reflexivity. Qed.

(** ** The cluster enumeration *)

Module ClusterFacts.
Import Cluster.

Lemma cluster_enum_values :
  enum_values 0 cluster_enum
  = [ ("CLUSTER_GLOBAL"%string, 0); ("CLUSTER_SS"%string, 1);
      ("NUM_CLUSTERS"%string, 2) ].
Proof. reflexivity. Qed.

(** C10: the enumeration gives the clusters distinct, consecutive
    identifiers from 0 on, [CLUSTER_GLOBAL = 0] and [CLUSTER_SS = 1];
    [NUM_CLUSTERS] is 2, one more than the largest of them, so the
    identifiers of the clusters are the [id] with
    [0 <= id < NUM_CLUSTERS]. *)
Theorem cluster_ids_consecutive :
  CLUSTER_GLOBAL = 0
  /\ CLUSTER_SS = 1
  /\ NUM_CLUSTERS = 2
  /\ NoDup cluster_ids
  /\ NUM_CLUSTERS = 1 + fold_right Z.max 0 cluster_ids
  /\ forall id, In id cluster_ids <-> 0 <= id < NUM_CLUSTERS.
Proof.
  assert (E0 : CLUSTER_GLOBAL = 0) by reflexivity.
  assert (E1 : CLUSTER_SS = 1) by reflexivity.
  assert (E2 : NUM_CLUSTERS = 2) by reflexivity.
  assert (E3 : cluster_ids = [0; 1]) by reflexivity.
rewrite E0, E1, E2, E3.
  repeat split.
  - repeat constructor; simpl; intros H.
    + apply list_elem_of_In in H. simpl in H. destruct H as [H|[]].
      discriminate H.
    + apply list_elem_of_In in H. destruct H.
  - simpl in H. lia.
  - simpl in H. lia.
  - intros H. simpl. lia.
Qed.

End ClusterFacts.

(** ** The statsd parser *)

Module StatsdFacts.
Import Statsd.

Lemma basic_parser_parse_cases max buffer :
  (exists d, parse max buffer = Parsed d
             /\ basic_parser_parse max buffer = (1, Some d))
  \/ (exists e, parse max buffer = Failure e
                /\ basic_parser_parse max buffer = (0, None)).
Proof.
  unfold basic_parser_parse. destruct (parse max buffer) as [d|e]; eauto.
Qed.

(** Every kind of the taxonomy is reported by [parse] for some buffer. *)
Lemma parse_failure_kinds :
  parse 4 (bytes "foo:1|c") = Failure TooLarge
  /\ parse max_udp (bytes "foo:1|x") = Failure UnknownType
  /\ parse max_udp (bytes "foo:1|c|@5") = Failure InvalidSampleRate
  /\ parse max_udp (bytes "foo:one|c") = Failure MalformedValue
  /\ parse max_udp (bytes ":1|c") = Failure MalformedName.
Proof. repeat split; vm_compute; reflexivity. Qed.

(** C3, as the code has it: the value returned says whether the parse
    succeeded, 1, or failed, 0, and nothing more; the placeholder is
    filled on success only, and every failing buffer gives the caller
    the same result. *)
Theorem basic_parser_parse_returns_flag (max : nat) :
  (forall buffer,
     (exists d, parse max buffer = Parsed d
                /\ basic_parser_parse max buffer = (1, Some d))
     \/ (exists e, parse max buffer = Failure e
                   /\ basic_parser_parse max buffer = (0, None)))
  /\ (forall b1 b2 e1 e2,
        parse max b1 = Failure e1 -> parse max b2 = Failure e2 ->
        basic_parser_parse max b1 = basic_parser_parse max b2).
Proof.
  split.
  - apply basic_parser_parse_cases.
  - intros b1 b2 e1 e2 H1 H2. unfold basic_parser_parse.
    now rewrite H1, H2.
Qed.

(** C3, refuted as stated: a statement of unknown type and one with an
    invalid sample rate fail with different kinds, and the caller gets
    the same result for both; no function of the result returned tells
    the kind of failure. *)
Lemma failure_kind_not_returned :
  parse max_udp (bytes "foo:1|x") = Failure UnknownType
  /\ parse max_udp (bytes "foo:1|c|@5") = Failure InvalidSampleRate
  /\ basic_parser_parse max_udp (bytes "foo:1|x") = (0, None)
  /\ basic_parser_parse max_udp (bytes "foo:1|c|@5") = (0, None)
  /\ ~ (exists classify : Z * option statsd_datagram -> ParseError,
          forall buffer e,
            parse max_udp buffer = Failure e ->
            classify (basic_parser_parse max_udp buffer) = e).
Proof.
  assert (H1 : parse max_udp (bytes "foo:1|x") = Failure UnknownType)
    by (vm_compute; reflexivity).
  assert (H2 : parse max_udp (bytes "foo:1|c|@5")
               = Failure InvalidSampleRate)
    by (vm_compute; reflexivity).
  split; [exact H1|]. split; [exact H2|]. split; [|split].
  - unfold basic_parser_parse. now rewrite H1.
  - unfold basic_parser_parse. now rewrite H2.
  - intros [classify Hc].
    pose proof (Hc _ _ H1) as A. pose proof (Hc _ _ H2) as B.
    unfold basic_parser_parse in A, B. rewrite H1 in A. rewrite H2 in B.
    congruence.
Qed.

(** C5, as the code has it: one call fills one placeholder.  Whatever
    the buffer holds, and whatever the body of the parser does with it,
    the call yields one datagram at most: exactly one when it returns 1,
    none when it returns 0. *)
Theorem one_call_one_datagram :
  (forall (body : list byte -> parse_result) (buffer : list byte),
     (length (yielded (header_call body buffer)) <= 1)%nat
     /\ (fst (header_call body buffer) = 1
         <-> exists d, yielded (header_call body buffer) = [d])
     /\ (fst (header_call body buffer) = 0
         <-> yielded (header_call body buffer) = []))
  /\ (forall (max : nat) (buffer : list byte),
        basic_parser_parse max buffer = header_call (parse max) buffer
        /\ (length (yielded (basic_parser_parse max buffer)) <= 1)%nat).
Proof.
  split.
  - intros body buffer. unfold header_call, yielded.
    destruct (body buffer) as [d|e]; simpl.
    + split; [lia|]. split; split; intros H;
        try discriminate H; try reflexivity; eauto.
    + split; [lia|]. split; split; intros H;
        try discriminate H; try reflexivity.
      destruct H as [d' H]. discriminate H.
  - intros max buffer. split; [reflexivity|].
    unfold basic_parser_parse, yielded.
    destruct (parse max buffer); simpl; lia.
Qed.

(** C5, refuted as stated: the buffer "a:1|c\nb:2|c" holds two
    statements, each of them valid, and one call on it yields fewer than
    two datagrams, whatever the body of the parser is. *)
Lemma two_statements_one_call :
  statements (bytes "a:1|c" ++ [x0a] ++ bytes "b:2|c")
  = [bytes "a:1|c"; bytes "b:2|c"]
  /\ fst (basic_parser_parse max_udp (bytes "a:1|c")) = 1
  /\ fst (basic_parser_parse max_udp (bytes "b:2|c")) = 1
  /\ (forall body : list byte -> parse_result,
        (length (yielded (header_call body
                            (bytes "a:1|c" ++ [x0a] ++ bytes "b:2|c")))
         < 2)%nat)
  /\ (length (yielded (basic_parser_parse max_udp
                         (bytes "a:1|c" ++ [x0a] ++ bytes "b:2|c")))
      < 2)%nat.
Proof.
  split; [vm_compute; reflexivity|].
  split; [vm_compute; reflexivity|].
  split; [vm_compute; reflexivity|].
  split.
  - intros body. unfold header_call, yielded.
    destruct (body _); simpl; lia.
  - apply Nat.ltb_lt. vm_compute. reflexivity.
Qed.

(** C6: parsing "foo:1|c" succeeds and gives a Counter datagram named
    "foo" with value 1, and with sample rate 1 as no rate is sent. *)
Theorem parse_foo_counter (max : nat) :
  (7 <= max)%nat ->
  basic_parser_parse max (bytes "foo:1|c")
  = (1, Some {| dg_name := bytes "foo";
                dg_type := Counter;
                dg_value := Number (Qmake 1 1);
                dg_sampleRate := Qmake 1 1;
                dg_tags := [] |}).
Proof.
  intros Hmax. unfold basic_parser_parse, parse.
  change (length (bytes "foo:1|c")) with 7%nat.
  replace (max <? 7)%nat with false by (symmetry; apply Nat.ltb_ge; lia).
  vm_compute. reflexivity.
Qed.

Lemma parse_foo_counter_witness :
  basic_parser_parse max_udp (bytes "foo:1|c")
  = (1, Some {| dg_name := bytes "foo";
                dg_type := Counter;
                dg_value := Number (Qmake 1 1);
                dg_sampleRate := Qmake 1 1;
                dg_tags := [] |}).
Proof.
  apply (parse_foo_counter max_udp). apply Nat.leb_le. reflexivity.
Defined.

End StatsdFacts.

(** ** More on [refresh_proc_uptime]: calls made, what the result depends
    on, and other contents of the file *)

Lemma skip_space_spaces (ws s : list byte) :
  forallb Libc.isspace ws = true ->
  Libc.skip_space (ws ++ s) = Libc.skip_space s.
Proof.
  induction ws as [|c ws IH]; simpl; [reflexivity|].
  intros [Hc Hws]%andb_true_iff. rewrite Hc. auto.
Qed.

Lemma conv_lf_spaces (ws s : list byte) :
  forallb Libc.isspace ws = true ->
  Libc.conv_lf (ws ++ s) = Libc.conv_lf s.
Proof.
  intros Hws. unfold Libc.conv_lf. now rewrite skip_space_spaces.
Qed.

Lemma no_nul_spaces (ws : list byte) :
  forallb Libc.isspace ws = true -> Libc.no_nul ws = true.
Proof.
  unfold Libc.no_nul. induction ws as [|c ws IH]; simpl; [reflexivity|].
  intros [Hc Hws]%andb_true_iff. rewrite IH by assumption.
  destruct c; try discriminate Hc; reflexivity.
Qed.

Lemma until_nul_no_nul (l : list byte) :
  Libc.no_nul l = true -> until_nul l = l.
Proof.
  intros H. rewrite <- (app_nil_r l) at 1.
  rewrite until_nul_app by exact H. now rewrite app_nil_r.
Qed.

Lemma delimited_spaces_app (ws s : list byte) :
  forallb Libc.isspace ws = true -> Libc.nonempty ws = true ->
  Libc.delimited (ws ++ s) = true.
Proof.
  destruct ws as [|c ws]; simpl; [discriminate|].
  now intros [Hc _]%andb_true_iff _.
Qed.

(** What is scanned of a text that has a NUL in it: the bytes before the
    NUL, wherever the text stops after it. *)
Lemma scanned_before_nul (p t : list byte) :
  Libc.no_nul p = true ->
  until_nul (all_but_last (p ++ NUL :: t)) = p.
Proof.
  intros Hp. unfold all_but_last. rewrite length_app. simpl.
  replace (length p + S (length t) - 1)%nat with (length p + length t)%nat
    by lia.
  rewrite take_app_add'; [|reflexivity].
  rewrite until_nul_app by exact Hp.
  destruct t as [|c t]; simpl; now rewrite app_nil_r.
Qed.

Lemma all_but_last_app (l t : list byte) :
  Libc.nonempty t = true -> all_but_last (l ++ t) = l ++ all_but_last t.
Proof.
  intros Ht. unfold all_but_last. rewrite length_app.
  destruct t as [|c t]; [discriminate|]. simpl length.
  replace (length l + S (length t) - 1)%nat with (length l + length t)%nat
    by lia.
  replace (S (length t) - 1)%nat with (length t) by lia.
  now apply take_app_add'.
Qed.

Lemma scan_float_no_start (c : byte) (s : list byte) :
  can_start_number c = false -> Libc.scan_float (c :: s) = None.
Proof.
  unfold can_start_number.
  destruct c; intros H; try discriminate H; reflexivity.
Qed.

Section ProcUptimeBehaviour.

Variable double : Type.
Variable dzero : double.
Variable MAXPATHLEN : nat.
Variable linux_statspath : list byte.
Variable sscanf : list byte -> proc_uptime_t double
                  -> Z * proc_uptime_t double.
Variable strtod : list byte -> double.

Local Abbreviation refresh :=
  (refresh_proc_uptime double dzero MAXPATHLEN linux_statspath sscanf).
Local Abbreviation refresh_model :=
  (refresh_proc_uptime double dzero MAXPATHLEN linux_statspath
     (sscanf_lf_lf double strtod)).
Local Abbreviation path := (uptime_path MAXPATHLEN linux_statspath).

(** X1: whatever the system answers, the call returns, after exactly
    these system calls: the [open] alone when it fails, and otherwise the
    [open], one [read] of [sizeof(buf)] bytes and one [close], both on
    the descriptor that [open] gave. *)
Theorem refresh_call_sequence os g pu w :
  (0 < MAXPATHLEN)%nat ->
  Z.of_nat MAXPATHLEN <= INT_MAX ->
  exists ret pu' w',
    refresh os g pu w = Some ((ret, pu'), w')
    /\ w_trace w'
       = w_trace w
         ++ match os_open os path with
            | Failed _ => [EvOpen path]
            | Done fd => [EvOpen path; EvRead (Z.of_nat fd) MAXPATHLEN;
                          EvClose (Z.of_nat fd)]
            end.
Proof.
  intros Hpos Hint.
  destruct (os_open os path) as [e|fd] eqn:Ho.
  - eexists _, _, _. split.
    + apply (run_open_failed _ _ _ _ _ Hpos _ _ _ _ _ Ho).
    + reflexivity.
  - destruct (os_read os (Z.of_nat fd)) as [e|data] eqn:Hr.
    + eexists _, _, _. split.
      * apply (run_read_failed _ _ _ _ _ Hpos _ _ _ _ _ _ Ho Hr).
      * rewrite trace_after_close. unfold set_errno, log. simpl.
        now rewrite <- !app_assoc.
    + eexists _, _, _. split.
      * apply (run_read_done _ _ _ _ _ Hpos Hint _ _ _ _ _ _ Ho Hr).
      * rewrite trace_after_close. unfold log. simpl.
        now rewrite <- !app_assoc.
Qed.

(** X2: nothing of the uninitialised buffer and nothing of what the
    caller's structure held reaches the result: two calls that differ
    only in these give the same value, the same structure and the same
    world. *)
Theorem refresh_ignores_old_memory os g1 g2 pu1 pu2 w :
  (0 < MAXPATHLEN)%nat ->
  Z.of_nat MAXPATHLEN <= INT_MAX ->
  refresh os g1 pu1 w = refresh os g2 pu2 w.
Proof.
  intros Hpos Hint.
  destruct (os_open os path) as [e|fd] eqn:Ho.
  - now rewrite !(run_open_failed _ _ _ _ _ Hpos _ _ _ _ _ Ho).
  - destruct (os_read os (Z.of_nat fd)) as [e|data] eqn:Hr.
    + pose proof (run_read_failed double dzero MAXPATHLEN linux_statspath
                    sscanf Hpos os g1 pu1 w _ _ Ho Hr) as A.
      pose proof (run_read_failed double dzero MAXPATHLEN linux_statspath
                    sscanf Hpos os g2 pu2 w _ _ Ho Hr) as B.
      simpl in A, B. now rewrite A, B.
    + now rewrite !(run_read_done _ _ _ _ _ Hpos Hint _ _ _ _ _ _ Ho Hr).
Qed.

(** X3: [close] comes between [read] and [oserror()], and its result is
    not looked at.  When [read] failed and [close] fails too, the value
    returned is the negated error number of [close], not the one of
    [read]; when [read] succeeded, a failing [close] is not reported: the
    call returns 0, with the fields that [sscanf] assigned. *)
Theorem refresh_close_outcome os g pu w fd :
  (0 < MAXPATHLEN)%nat ->
  Z.of_nat MAXPATHLEN <= INT_MAX ->
  os_open os path = Done fd ->
  (forall e,
     os_read os (Z.of_nat fd) = Failed e ->
     exists w',
       refresh os g pu w
       = Some ((- Z.pos match os_close os (Z.of_nat fd) with
                        | Failed e' => e'
                        | Done _ => e
                        end, zeroed dzero), w'))
  /\ (forall data e',
        os_read os (Z.of_nat fd) = Done data ->
        os_close os (Z.of_nat fd) = Failed e' ->
        exists w',
          refresh os g pu w
          = Some ((0, snd (sscanf
                             (until_nul
                                (all_but_last (take MAXPATHLEN data)))
                             (zeroed dzero))), w')).
Proof.
  intros Hpos Hint Ho. split.
  - intros e Hr. eexists.
    rewrite (run_read_failed _ _ _ _ _ Hpos _ _ _ _ _ _ Ho Hr).
    rewrite errno_after_close.
    destruct (os_close os (Z.of_nat fd)); reflexivity.
  - intros data e' Hr Hc. eexists.
    apply (run_read_done _ _ _ _ _ Hpos Hint _ _ _ _ _ _ Ho Hr).
Qed.

(** X4: what the file holds from byte [MAXPATHLEN - 1] on is never
    looked at: for a file of [MAXPATHLEN] bytes or more, [sscanf] gets
    the first [MAXPATHLEN - 1] bytes and the call returns 0. *)
Theorem refresh_long_file_truncated os g pu w fd data :
  (0 < MAXPATHLEN)%nat ->
  Z.of_nat MAXPATHLEN <= INT_MAX ->
  (MAXPATHLEN <= length data)%nat ->
  os_open os path = Done fd ->
  os_read os (Z.of_nat fd) = Done data ->
  exists w',
    refresh os g pu w
    = Some ((0, snd (sscanf (until_nul (take (MAXPATHLEN - 1) data))
                            (zeroed dzero))), w').
Proof.
  intros Hpos Hint Hlen Ho Hr. eexists.
  rewrite (run_read_done _ _ _ _ _ Hpos Hint _ _ _ _ _ _ Ho Hr).
  unfold all_but_last. rewrite length_take.
  replace (MAXPATHLEN `min` length data)%nat with MAXPATHLEN by lia.
  rewrite take_take.
  replace ((MAXPATHLEN - 1) `min` MAXPATHLEN)%nat with (MAXPATHLEN - 1)%nat
    by lia.
  reflexivity.
Qed.

(** X5: a NUL byte in the file ends what is scanned: when the bytes [p]
    before the first NUL fit the buffer, [sscanf] gets [p], whatever
    follows the NUL. *)
Theorem refresh_stops_at_nul os g pu w fd (p r : list byte) :
  (0 < MAXPATHLEN)%nat ->
  Z.of_nat MAXPATHLEN <= INT_MAX ->
  Libc.no_nul p = true ->
  (length p < MAXPATHLEN)%nat ->
  os_open os path = Done fd ->
  os_read os (Z.of_nat fd) = Done (p ++ NUL :: r) ->
  exists w',
    refresh os g pu w = Some ((0, snd (sscanf p (zeroed dzero))), w').
Proof.
  intros Hpos Hint Hp Hlen Ho Hr. eexists.
  rewrite (run_read_done _ _ _ _ _ Hpos Hint _ _ _ _ _ _ Ho Hr).
  replace (take MAXPATHLEN (p ++ NUL :: r))
    with (p ++ NUL :: take (MAXPATHLEN - length p - 1) r).
  - now rewrite scanned_before_nul.
  - rewrite take_app_ge by lia.
    destruct (MAXPATHLEN - length p)%nat as [|k] eqn:E; [lia|].
    simpl. now replace (k - 0)%nat with k by lia.
Qed.

(** X6: a file of no byte, or of one byte, gives an empty string to
    [sscanf]: no field is assigned, both are 0, and the call returns 0. *)
Theorem refresh_empty_file os g pu w fd data :
  (0 < MAXPATHLEN)%nat ->
  Z.of_nat MAXPATHLEN <= INT_MAX ->
  (length data <= 1)%nat ->
  os_open os path = Done fd ->
  os_read os (Z.of_nat fd) = Done data ->
  exists w',
    refresh_model os g pu w
    = Some ((0, {| uptime := dzero; idletime := dzero |}), w').
Proof.
  intros Hpos Hint Hlen Ho Hr. eexists.
  rewrite (run_read_done _ _ _ _ _ Hpos Hint _ _ _ _ _ _ Ho Hr).
  replace (all_but_last (take MAXPATHLEN data)) with (@nil byte);
    [reflexivity|].
  unfold all_but_last.
  destruct data as [|c [|c' data]]; [| |simpl in Hlen; lia].
  - now rewrite take_nil.
  - destruct MAXPATHLEN; [lia|]. simpl. now rewrite take_nil.
Qed.

(** X7: a file with one number only, "A\n": [uptime] is A, [idletime]
    stays 0, and the value returned is 0 all the same. *)
Theorem refresh_single_number os g pu w fd (a : Libc.literal)
    (ws : list byte) (c : byte) :
  (0 < MAXPATHLEN)%nat ->
  Z.of_nat MAXPATHLEN <= INT_MAX ->
  Libc.wf_literal a = true ->
  forallb Libc.isspace ws = true ->
  (length (single_number_text a ws c) <= MAXPATHLEN)%nat ->
  os_open os path = Done fd ->
  os_read os (Z.of_nat fd) = Done (single_number_text a ws c) ->
  exists w',
    refresh_model os g pu w
    = Some ((0, {| uptime := strtod (Libc.render a); idletime := dzero |}),
            w').
Proof.
  intros Hpos Hint Ha Hws Hlen Ho Hr. eexists.
  rewrite (run_read_done _ _ _ _ _ Hpos Hint _ _ _ _ _ _ Ho Hr).
  rewrite take_ge by lia. unfold single_number_text.
  replace (Libc.render a ++ ws ++ [c]) with ((Libc.render a ++ ws) ++ [c])
    by (now rewrite <- app_assoc).
  rewrite all_but_last_snoc.
  rewrite until_nul_no_nul
    by (apply LibcFacts.no_nul_app;
        [now apply LibcFacts.render_no_nul | now apply no_nul_spaces]).
  unfold sscanf_lf_lf.
  rewrite LibcFacts.conv_lf_render; trivial.
  2:{ destruct ws as [|c0 ws]; [reflexivity|]. simpl in *.
      now apply andb_true_iff in Hws as [-> _]. }
  rewrite <- (app_nil_r ws), !skip_space_spaces by assumption.
  reflexivity.
Qed.

(** X8: the layout of the two numbers is free: white space may come
    before them, any white space separates them, what follows the second
    number after white space is not looked at, and the last byte of the
    file is dropped whatever it is. *)
Theorem refresh_accepts_layout os g pu w fd (a b : Libc.literal)
    (ws1 ws2 tail : list byte) (c : byte) :
  (0 < MAXPATHLEN)%nat ->
  Z.of_nat MAXPATHLEN <= INT_MAX ->
  Libc.wf_literal a = true ->
  Libc.wf_literal b = true ->
  forallb Libc.isspace ws1 = true ->
  forallb Libc.isspace ws2 = true ->
  Libc.nonempty ws2 = true ->
  Libc.delimited tail = true ->
  Libc.no_nul tail = true ->
  (length (uptime_layout ws1 a ws2 b tail c) <= MAXPATHLEN)%nat ->
  os_open os path = Done fd ->
  os_read os (Z.of_nat fd) = Done (uptime_layout ws1 a ws2 b tail c) ->
  exists w',
    refresh_model os g pu w
    = Some ((0, {| uptime := strtod (Libc.render a);
                   idletime := strtod (Libc.render b) |}), w').
Proof.
  intros Hpos Hint Ha Hb H1 H2 Hne Ht Hnt Hlen Ho Hr. eexists.
  rewrite (run_read_done _ _ _ _ _ Hpos Hint _ _ _ _ _ _ Ho Hr).
  rewrite take_ge by lia. unfold uptime_layout.
  replace (ws1 ++ Libc.render a ++ ws2 ++ Libc.render b ++ tail ++ [c])
    with ((ws1 ++ Libc.render a ++ ws2 ++ Libc.render b ++ tail) ++ [c])
    by (now rewrite <- !app_assoc).
  rewrite all_but_last_snoc.
  rewrite until_nul_no_nul.
  2:{ apply LibcFacts.no_nul_app; [now apply no_nul_spaces|].
      apply LibcFacts.no_nul_app; [now apply LibcFacts.render_no_nul|].
      apply LibcFacts.no_nul_app; [now apply no_nul_spaces|].
      apply LibcFacts.no_nul_app; [now apply LibcFacts.render_no_nul|].
      exact Hnt. }
  unfold sscanf_lf_lf.
  rewrite conv_lf_spaces by assumption.
  rewrite LibcFacts.conv_lf_render
    by (trivial; now apply delimited_spaces_app).
  rewrite skip_space_spaces by assumption.
  rewrite LibcFacts.skip_space_render by assumption.
  rewrite LibcFacts.conv_lf_render by assumption.
  reflexivity.
Qed.

(** X9: the file opened is [linux_statspath] followed by "/proc/uptime",
    cut to the [MAXPATHLEN - 1] bytes that fit the buffer; it is the whole
    name when that is shorter than [MAXPATHLEN]. *)
Theorem refresh_opens_statspath_file os g pu w :
  (0 < MAXPATHLEN)%nat ->
  Z.of_nat MAXPATHLEN <= INT_MAX ->
  Libc.no_nul linux_statspath = true ->
  exists ret pu' w' calls,
    refresh os g pu w = Some ((ret, pu'), w')
    /\ w_trace w'
       = w_trace w
         ++ EvOpen (take (MAXPATHLEN - 1)
                      (linux_statspath ++ bytes "/proc/uptime")) :: calls
    /\ ((length linux_statspath + 12 < MAXPATHLEN)%nat ->
        take (MAXPATHLEN - 1) (linux_statspath ++ bytes "/proc/uptime")
        = linux_statspath ++ bytes "/proc/uptime").
Proof.
  intros Hpos Hint Hsp.
  assert (Hpath : path = take (MAXPATHLEN - 1)
                           (linux_statspath ++ bytes "/proc/uptime")).
  { unfold uptime_path. rewrite (until_nul_no_nul linux_statspath Hsp).
    apply until_nul_no_nul. unfold Libc.no_nul.
    apply forallb_forall. intros x Hx.
    apply list_elem_of_In, elem_of_take in Hx as (i & Hx & _).
    apply list_elem_of_lookup_2, list_elem_of_In in Hx.
    revert x Hx. apply forallb_forall.
    now apply (LibcFacts.no_nul_app linux_statspath). }
  assert (Hfit : (length linux_statspath + 12 < MAXPATHLEN)%nat ->
                 take (MAXPATHLEN - 1)
                   (linux_statspath ++ bytes "/proc/uptime")
                 = linux_statspath ++ bytes "/proc/uptime").
  { intros Hfit. apply take_ge. rewrite length_app. simpl. lia. }
  rewrite <- Hpath in Hfit |- *.
  destruct (os_open os path) as [e|fd] eqn:Ho.
  - eexists _, _, _, _. split; [|split; [|exact Hfit]].
    + apply (run_open_failed _ _ _ _ _ Hpos _ _ _ _ _ Ho).
    + reflexivity.
  - destruct (os_read os (Z.of_nat fd)) as [e|data] eqn:Hr.
    + eexists _, _, _, _. split; [|split; [|exact Hfit]].
      * apply (run_read_failed _ _ _ _ _ Hpos _ _ _ _ _ _ Ho Hr).
      * rewrite trace_after_close. unfold set_errno, log. simpl.
        rewrite <- !app_assoc. reflexivity.
    + eexists _, _, _, _. split; [|split; [|exact Hfit]].
      * apply (run_read_done _ _ _ _ _ Hpos Hint _ _ _ _ _ _ Ho Hr).
      * rewrite trace_after_close. unfold log. simpl.
        rewrite <- !app_assoc. reflexivity.
Qed.

(** X10: a file whose first byte after white space cannot start a number
    leaves both fields 0, and the call returns 0: the caller gets what the
    file "0 0" gives. *)
Theorem refresh_no_number os g pu w fd (ws : list byte) (c : byte)
    (tail : list byte) :
  (0 < MAXPATHLEN)%nat ->
  Z.of_nat MAXPATHLEN <= INT_MAX ->
  forallb Libc.isspace ws = true ->
  Libc.isspace c = false ->
  can_start_number c = false ->
  Libc.nonempty tail = true ->
  (length ws + 2 <= MAXPATHLEN)%nat ->
  os_open os path = Done fd ->
  os_read os (Z.of_nat fd) = Done (ws ++ c :: tail) ->
  exists w',
    refresh_model os g pu w
    = Some ((0, {| uptime := dzero; idletime := dzero |}), w').
Proof.
  intros Hpos Hint Hws Hc Hn Ht Hlen Ho Hr. eexists.
  rewrite (run_read_done _ _ _ _ _ Hpos Hint _ _ _ _ _ _ Ho Hr).
  assert (E : exists t', all_but_last (take MAXPATHLEN (ws ++ c :: tail))
                         = ws ++ c :: t').
  { rewrite take_app_ge by lia.
    destruct (MAXPATHLEN - length ws)%nat as [|[|k]] eqn:E; [lia|lia|].
    destruct tail as [|t0 tail]; [discriminate|]. simpl take.
    exists (all_but_last (t0 :: take k tail)).
    change (ws ++ c :: t0 :: take k tail)
      with (ws ++ [c] ++ t0 :: take k tail).
    rewrite app_assoc, all_but_last_app by reflexivity.
    now rewrite <- app_assoc. }
  destruct E as [t' ->].
  rewrite until_nul_app by (now apply no_nul_spaces).
  unfold sscanf_lf_lf. rewrite conv_lf_spaces by assumption.
  simpl until_nul. destruct (is_nul c).
  - reflexivity.
  - unfold Libc.conv_lf. simpl Libc.skip_space. rewrite Hc.
    now rewrite scan_float_no_start.
Qed.

End ProcUptimeBehaviour.

(** ** The same, on concrete systems *)

Lemma refresh_call_sequence_witness :
  exists ret pu' w',
    refresh_Q os_unreadable garbage0 stale world0 = Some ((ret, pu'), w')
    /\ w_trace w'
       = [EvOpen (bytes "/proc/uptime"); EvRead 3 4096; EvClose 3].
Proof.
  apply (refresh_call_sequence Q (Qmake 0 1) PATH_MAX_linux []
           (sscanf_lf_lf Q Decimal.decimal_value) os_unreadable garbage0
           stale world0).
  - apply Nat.ltb_lt. reflexivity.
  - apply Z.leb_le. reflexivity.
Defined.

Lemma refresh_ignores_old_memory_witness :
  refresh_Q (os_file (uptime_text lit_uptime lit_idle)) garbage0 stale world0
  = refresh_Q (os_file (uptime_text lit_uptime lit_idle)) garbage1 stale2
      world0.
Proof.
  apply (refresh_ignores_old_memory Q (Qmake 0 1) PATH_MAX_linux []
           (sscanf_lf_lf Q Decimal.decimal_value)).
  - apply Nat.ltb_lt. reflexivity.
  - apply Z.leb_le. reflexivity.
Defined.

Lemma refresh_close_outcome_witness :
  (exists w',
     refresh_Q os_close_fails garbage0 stale world0
     = Some ((-9, zeroed (Qmake 0 1)), w'))
  /\ (exists w',
        refresh_Q (os_answers (Done 3%nat)
                     (Done (uptime_text lit_uptime lit_idle)) (Failed EBADF))
          garbage0 stale world0
        = Some ((0, {| uptime := Decimal.decimal_value (bytes "350735.47");
                       idletime := Decimal.decimal_value
                                     (bytes "234388.90") |}), w')).
Proof.
  assert (Hpos : (0 < PATH_MAX_linux)%nat) by (apply Nat.ltb_lt; reflexivity).
  assert (Hint : Z.of_nat PATH_MAX_linux <= INT_MAX)
    by (apply Z.leb_le; reflexivity).
  split.
  - apply (proj1 (refresh_close_outcome Q (Qmake 0 1) PATH_MAX_linux []
                    (sscanf_lf_lf Q Decimal.decimal_value) os_close_fails
                    garbage0 stale world0 3%nat Hpos Hint eq_refl) EIO).
    reflexivity.
  - apply (proj2 (refresh_close_outcome Q (Qmake 0 1) PATH_MAX_linux []
                    (sscanf_lf_lf Q Decimal.decimal_value)
                    (os_answers (Done 3%nat)
                       (Done (uptime_text lit_uptime lit_idle))
                       (Failed EBADF))
                    garbage0 stale world0 3%nat Hpos Hint eq_refl)
             (uptime_text lit_uptime lit_idle) EBADF); reflexivity.
Defined.

Lemma refresh_long_file_truncated_witness :
  exists w',
    refresh_proc_uptime Q (Qmake 0 1) 8 []
      (sscanf_lf_lf Q Decimal.decimal_value)
      (os_file (bytes "12.5 3.25 7")) garbage0 stale world0
    = Some ((0, {| uptime := Decimal.decimal_value (bytes "12.5");
                   idletime := Decimal.decimal_value (bytes "3.") |}), w').
Proof.
  apply (refresh_long_file_truncated Q (Qmake 0 1) 8 []
           (sscanf_lf_lf Q Decimal.decimal_value)
           (os_file (bytes "12.5 3.25 7")) garbage0 stale world0 3%nat
           (bytes "12.5 3.25 7")).
  - apply Nat.ltb_lt. reflexivity.
  - apply Z.leb_le. reflexivity.
  - apply Nat.leb_le. reflexivity.
  - reflexivity.
  - reflexivity.
Defined.

Lemma refresh_stops_at_nul_witness :
  exists w',
    refresh_Q (os_file (bytes "1 2.5" ++ NUL :: bytes "9 9")) garbage0 stale
      world0
    = Some ((0, {| uptime := Decimal.decimal_value (bytes "1");
                   idletime := Decimal.decimal_value (bytes "2.5") |}), w').
Proof.
  apply (refresh_stops_at_nul Q (Qmake 0 1) PATH_MAX_linux []
           (sscanf_lf_lf Q Decimal.decimal_value)
           (os_file (bytes "1 2.5" ++ NUL :: bytes "9 9")) garbage0 stale
           world0 3%nat (bytes "1 2.5") (bytes "9 9")).
  - apply Nat.ltb_lt. reflexivity.
  - apply Z.leb_le. reflexivity.
  - reflexivity.
  - apply Nat.ltb_lt. reflexivity.
  - reflexivity.
  - reflexivity.
Defined.

Lemma refresh_empty_file_witness :
  exists w',
    refresh_Q (os_file []) garbage0 stale world0
    = Some ((0, {| uptime := Qmake 0 1; idletime := Qmake 0 1 |}), w').
Proof.
  apply (refresh_empty_file Q (Qmake 0 1) PATH_MAX_linux []
           Decimal.decimal_value (os_file []) garbage0 stale world0 3%nat []).
  - apply Nat.ltb_lt. reflexivity.
  - apply Z.leb_le. reflexivity.
  - apply Nat.leb_le. reflexivity.
  - reflexivity.
  - reflexivity.
Defined.

Lemma refresh_single_number_witness :
  exists w',
    refresh_Q (os_file (single_number_text lit_uptime [] x0a)) garbage0 stale
      world0
    = Some ((0, {| uptime := Decimal.decimal_value (bytes "350735.47");
                   idletime := Qmake 0 1 |}), w').
Proof.
  apply (refresh_single_number Q (Qmake 0 1) PATH_MAX_linux []
           Decimal.decimal_value
           (os_file (single_number_text lit_uptime [] x0a)) garbage0 stale
           world0 3%nat lit_uptime [] x0a).
  - apply Nat.ltb_lt. reflexivity.
  - apply Z.leb_le. reflexivity.
  - reflexivity.
  - reflexivity.
  - apply Nat.leb_le. reflexivity.
  - reflexivity.
  - reflexivity.
Defined.

Lemma refresh_accepts_layout_witness :
  exists w',
    refresh_Q (os_file (uptime_layout [x20] lit_uptime [x09; x20] lit_two_half
                          (bytes " 99 cpus") x35))
      garbage0 stale world0
    = Some ((0, {| uptime := Decimal.decimal_value (bytes "350735.47");
                   idletime := Decimal.decimal_value (bytes "2.5") |}), w').
Proof.
  apply (refresh_accepts_layout Q (Qmake 0 1) PATH_MAX_linux []
           Decimal.decimal_value
           (os_file (uptime_layout [x20] lit_uptime [x09; x20] lit_two_half
                       (bytes " 99 cpus") x35))
           garbage0 stale world0 3%nat lit_uptime lit_two_half [x20]
           [x09; x20] (bytes " 99 cpus") x35).
  - apply Nat.ltb_lt. reflexivity.
  - apply Z.leb_le. reflexivity.
  - reflexivity.
  - reflexivity.
  - reflexivity.
  - reflexivity.
  - reflexivity.
  - reflexivity.
  - reflexivity.
  - apply Nat.leb_le. reflexivity.
  - reflexivity.
  - reflexivity.
Defined.

Lemma refresh_opens_statspath_file_witness :
  exists ret pu' w' calls,
    refresh_proc_uptime Q (Qmake 0 1) PATH_MAX_linux (bytes "/mnt")
      (sscanf_lf_lf Q Decimal.decimal_value) os_missing garbage0 stale world0
    = Some ((ret, pu'), w')
    /\ w_trace w' = EvOpen (bytes "/mnt/proc/uptime") :: calls
    /\ ((length (bytes "/mnt") + 12 < PATH_MAX_linux)%nat ->
        take (PATH_MAX_linux - 1) (bytes "/mnt" ++ bytes "/proc/uptime")
        = bytes "/mnt" ++ bytes "/proc/uptime").
Proof.
  apply (refresh_opens_statspath_file Q (Qmake 0 1) PATH_MAX_linux
           (bytes "/mnt") (sscanf_lf_lf Q Decimal.decimal_value) os_missing
           garbage0 stale world0).
  - apply Nat.ltb_lt. reflexivity.
  - apply Z.leb_le. reflexivity.
  - reflexivity.
Defined.

Lemma refresh_no_number_witness :
  exists w',
    refresh_Q (os_file (bytes "garbage" ++ [x0a])) garbage0 stale world0
    = Some ((0, {| uptime := Qmake 0 1; idletime := Qmake 0 1 |}), w').
Proof.
  apply (refresh_no_number Q (Qmake 0 1) PATH_MAX_linux []
           Decimal.decimal_value (os_file (bytes "garbage" ++ [x0a]))
           garbage0 stale world0 3%nat [] x67 (bytes "arbage" ++ [x0a])).
  - apply Nat.ltb_lt. reflexivity.
  - apply Z.leb_le. reflexivity.
  - reflexivity.
  - reflexivity.
  - reflexivity.
  - reflexivity.
  - apply Nat.leb_le. reflexivity.
  - reflexivity.
  - reflexivity.
Defined.
